(** * babel-tcc-translations: the validation script [scripts/validate.py]

    A shallow embedding of the four validation passes (JSON syntax, schema,
    completeness, uniqueness) and of the driver [main], followed by the
    properties of the specification stated over that embedding.

    Conventions of the embedding.
    - A Python [str] is a Rocq [string]; its characters stand for the code
      points 0..255 (ASCII and Latin-1), which is the range the built-ins
      below ([str.lower], [int], [repr]) are written out for.
    - A value produced by [json.load] is a [json]: [None], [bool], [int],
      [float], [str], [list] or [dict].  A [dict] keeps its items in
      insertion order, so it is an association list; [json.load] never
      yields one key twice, which [dict_wf] records.
    - A Python [set] of strings is a [gset string]; the dictionaries that
      the script only uses as maps ([prog_langs], [seen]) are [gmap]s.
      The order in which Python iterates a set is unspecified: the
      embedding iterates in the order of [elements], and the theorems only
      state facts that hold for every order.
    - An uncaught exception is the [Raise] outcome of the [result] monad.
    - Conversions between integers and strings have the limit of CPython
      3.11 and later, 4300 digits, which the script leaves at its default.
      [json.load] reads an integer literal with [int], so it never yields
      an integer of more digits; a [json] may hold one, and the theorems
      that need the bound state it. *)

From Stdlib Require Import ZArith String Ascii List DecimalString DecimalPos Permutation Lia.
From stdpp Require Import base strings list gmap sets sorting.

Local Open Scope string_scope.
Local Open Scope Z_scope.
Local Open Scope list_scope.

(** ** Python built-ins used by the script *)

Module Py.

(** Exceptions the script can raise and does not catch, and the one it
    catches in [validate_json_syntax]. *)
Inductive exn :=
| JSONDecodeError (msg : string)
| AttributeError
| ValueError
| UnicodeDecodeError
| RecursionError
| OSError.

Inductive result (A : Type) :=
| Ok (a : A)
| Raise (e : exn).
Arguments Ok {A} a.
Arguments Raise {A} e.

#[global] Instance result_ret : MRet result := @Ok.
#[global] Instance result_bind : MBind result := λ A B k r,
  match r with
  | Ok a => k a
  | Raise e => Raise e
  end.

(** [for x in l: s = body(s, x)], stopping at the first exception. *)
Fixpoint for_state {A S} (body : S → A → result S) (l : list A) (s : S)
  : result S :=
  match l with
  | [] => Ok s
  | x :: l' => s' ← body s x; for_state body l' s'
  end.

(** [for x in l: acc.extend(body(x))], stopping at the first exception. *)
Fixpoint for_extend {A E} (body : A → result (list E)) (l : list A)
  : result (list E) :=
  match l with
  | [] => Ok []
  | x :: l' =>
      es ← body x; es' ← for_extend body l'; Ok (es ++ es')
  end.

(** [[f(x) for x in l]], stopping at the first exception. *)
Fixpoint for_list {A B} (f : A → result B) (l : list A) : result (list B) :=
  match l with
  | [] => Ok []
  | x :: l' => y ← f x; ys ← for_list f l'; Ok (y :: ys)
  end.

Definition code (c : ascii) : N := N_of_ascii c.

Definition in_range (lo hi : N) (c : ascii) : bool :=
  ((lo <=? code c) && (code c <=? hi))%N.

(** [str.lower] on the code points 0..255: the letters A-Z and the
    Latin-1 capitals U+00C0..U+00DE (except the sign U+00D7) move up by 32. *)
Definition lower_char (c : ascii) : ascii :=
  if in_range 65 90 c || (in_range 192 222 c && negb (code c =? 215)%N)
  then ascii_of_N (code c + 32)
  else c.

Fixpoint lower (s : string) : string :=
  match s with
  | EmptyString => EmptyString
  | String c r => String (lower_char c) (lower r)
  end.

(** [sep.join(l)] *)
Fixpoint join (sep : string) (l : list string) : string :=
  match l with
  | [] => ""
  | [x] => x
  | x :: l' => x +:+ sep +:+ join sep l'
  end.

(** [s.endswith(suffix)], as the glob ["*" + suffix] tests a file name. *)
Definition endswith (s suffix : string) : bool :=
  let n := String.length s in
  let k := String.length suffix in
  (k <=? n)%nat && String.eqb (substring (n - k) k s) suffix.

(** *** Regular expressions [^[class]+$] under [re.match]

    [+] is greedy; [$] matches at the end of the string and also just
    before a newline that is the last character. *)
Fixpoint skip_class (cls : ascii → bool) (s : string) : string :=
  match s with
  | EmptyString => EmptyString
  | String c r => if cls c then skip_class cls r else s
  end.

Definition newline : ascii := ascii_of_N 10.

Definition at_dollar (s : string) : bool :=
  String.eqb s "" || String.eqb s (String newline "").

Definition match_plus_dollar (cls : ascii → bool) (s : string) : bool :=
  match s with
  | EmptyString => false
  | String c r => cls c && at_dollar (skip_class cls r)
  end.

Definition is_lower_az : ascii → bool := in_range 97 122.
Definition is_digit : ascii → bool := in_range 48 57.

(** *** [int(s)] for a string [s], base 10

    Surrounding white space is dropped, one sign is allowed, and the digits
    may be grouped by single underscores; more than [max_str_digits] digits
    are refused.  [None] stands for [ValueError]. *)
Definition is_int_space (c : ascii) : bool :=
  in_range 9 13 c || (code c =? 32)%N || (code c =? 133)%N || (code c =? 160)%N.

Definition digit_value (c : ascii) : Z := Z.of_N (code c) - 48.

(** [sys.get_int_max_str_digits()], which the script does not change. *)
Definition max_str_digits : nat := 4300.

(** The digits are read with their number: underscores, the sign and the
    white space do not count towards the limit, leading zeros do. *)
Fixpoint int_digits (acc : Z) (count : nat) (s : string) : Z * nat * string :=
  match s with
  | EmptyString => (acc, count, EmptyString)
  | String c r =>
      if is_digit c then int_digits (10 * acc + digit_value c) (S count) r
      else if (code c =? 95)%N then
        match r with
        | String d r' =>
            if is_digit d then int_digits (10 * acc + digit_value d) (S count) r'
            else (acc, count, s)
        | EmptyString => (acc, count, s)
        end
      else (acc, count, s)
  end.

Definition int_unsigned (s : string) : option Z :=
  match s with
  | String c r =>
      if is_digit c then
        let '(n, count, rest) := int_digits (digit_value c) 1 r in
        if String.eqb (skip_class is_int_space rest) ""
           && (count <=? max_str_digits)%nat
        then Some n else None
      else None
  | EmptyString => None
  end.

Definition int (s : string) : option Z :=
  match skip_class is_int_space s with
  | String c r =>
      if (code c =? 43)%N then int_unsigned r
      else if (code c =? 45)%N then Z.opp <$> int_unsigned r
      else int_unsigned (String c r)
  | EmptyString => None
  end.

(** [str(n)] for an [int]: [ValueError] when [n] has more than
    [max_str_digits] digits. *)
Definition str_int (n : Z) : result string :=
  let digits := NilZero.string_of_uint (N.to_uint (Z.abs_N n)) in
  if (String.length digits <=? max_str_digits)%nat
  then Ok (NilZero.string_of_int (Z.to_int n))
  else Raise ValueError.

(** *** [repr] of a string

    Single quotes unless the string holds a single quote and no double
    quote; backslash escapes for the quote, the backslash, tab, newline,
    carriage return, and [\xhh] for the code points that are not printable. *)
Fixpoint contains (c : ascii) (s : string) : bool :=
  match s with
  | EmptyString => false
  | String d r => Ascii.eqb c d || contains c r
  end.

Definition hex_digit (n : N) : ascii :=
  if (n <? 10)%N then ascii_of_N (48 + n) else ascii_of_N (87 + n).

Definition backslash : ascii := ascii_of_N 92.

Definition printable (c : ascii) : bool :=
  (in_range 32 126 c || in_range 161 255 c) && negb (code c =? 173)%N.

Definition repr_char (quote c : ascii) : string :=
  if Ascii.eqb c quote || Ascii.eqb c backslash then String backslash (String c "")
  else if (code c =? 9)%N then String backslash "t"
  else if (code c =? 10)%N then String backslash "n"
  else if (code c =? 13)%N then String backslash "r"
  else if printable c then String c ""
  else String backslash (String "x" (String (hex_digit (code c / 16))
                                       (String (hex_digit (code c mod 16)) ""))).

Fixpoint repr_chars (quote : ascii) (s : string) : string :=
  match s with
  | EmptyString => EmptyString
  | String c r => repr_char quote c +:+ repr_chars quote r
  end.

Definition single_quote : ascii := ascii_of_N 39.
Definition double_quote : ascii := ascii_of_N 34.

Definition repr_str (s : string) : string :=
  let quote : ascii :=
    if contains single_quote s && negb (contains double_quote s)
    then double_quote else single_quote in
  String quote (repr_chars quote s) +:+ String quote "".

(** *** [sorted(l, key=int)]

    The keys are computed first, for every element and in order, so one
    element that [int] rejects raises [ValueError]; the sort is stable. *)
Fixpoint insert_by_key (x : Z * string) (l : list (Z * string))
  : list (Z * string) :=
  match l with
  | [] => [x]
  | y :: l' => if (x.1 <=? y.1)%Z then x :: l else y :: insert_by_key x l'
  end.

Definition sort_by_key (l : list (Z * string)) : list (Z * string) :=
  foldr insert_by_key [] l.

Definition with_int_key (x : string) : result (Z * string) :=
  match int x with
  | Some n => Ok (n, x)
  | None => Raise ValueError
  end.

Definition sorted_key_int (l : list string) : result (list string) :=
  keyed ← for_list with_int_key l; Ok (sort_by_key keyed).*2.

End Py.

Import Py.

(** ** Decoded documents *)

#[warnings="-register-all"] Inductive json :=
| JNull
| JBool (b : bool)
| JInt (n : Z)
| JFloat (repr : string)
| JStr (s : string)
| JArr (elems : list json)
| JObj (items : list (string * json)).

(** A [float] is carried by its [repr]: the script never computes with
    one, it only tests its type and prints it. *)

Abbreviation dict := (list (string * json)).

Definition dict_wf (d : dict) : Prop := NoDup d.*1.

(** [d.get(key)], [None] when the key is absent. *)
Fixpoint dict_get (d : dict) (key : string) : option json :=
  match d with
  | [] => None
  | (k, v) :: d' => if String.eqb k key then Some v else dict_get d' key
  end.

(** [set(d.keys())] *)
Definition key_set (d : dict) : gset string := list_to_set d.*1.

(** [repr(v)] and [str(v)] of a decoded value; they raise when an integer
    inside [v] has too many digits for [str]. *)
Fixpoint py_repr (v : json) : result string :=
  match v with
  | JNull => Ok "None"
  | JBool b => Ok (if b then "True" else "False")
  | JInt n => str_int n
  | JFloat r => Ok r
  | JStr s => Ok (repr_str s)
  | JArr elems =>
      parts ← for_list py_repr elems;
      Ok ("[" +:+ join ", " parts +:+ "]")
  | JObj items =>
      parts ← for_list (λ kv, r ← py_repr kv.2; Ok (repr_str kv.1 +:+ ": " +:+ r)) items;
      Ok ("{" +:+ join ", " parts +:+ "}")
  end.

Definition py_str (v : json) : result string :=
  match v with
  | JStr s => Ok s
  | _ => py_repr v
  end.

(** ** The repository tree

    A file is its path relative to [ROOT], as the list of its components,
    and what [open] and [json.load] make of it: a document, a
    [JSONDecodeError] with the decoder's message, or another exception
    ([UnicodeDecodeError] for a file that is not UTF-8, [ValueError] for an
    integer literal of more than [max_str_digits] digits, [RecursionError]
    for a nesting that is too deep, [OSError] for a path that cannot be
    opened, such as a directory named *.json). *)

Inductive loaded :=
| Document (data : json)
| Malformed (msg : string)
| Unreadable (e : exn).

Record file := File { rel : list string; content : loaded }.

Abbreviation tree := (list file).

Definition name (p : list string) : string := List.last p "".

(** [path.parent.name] *)
Definition parent_name (p : list string) : string := name (removelast p).

Definition json_load (f : file) : result json :=
  match content f with
  | Document data => Ok data
  | Malformed msg => Raise (JSONDecodeError msg)
  | Unreadable e => Raise e
  end.

Definition SKIP_FILES : gset string := {[ "template.json" ]}.

Definition KEYWORD_PATTERN : string → bool := match_plus_dollar is_lower_az.
Definition ID_PATTERN : string → bool := match_plus_dollar is_digit.

(** [(ROOT / top).rglob(...)]: the files below the directory [top]. *)
Definition below (top : string) (p : list string) : bool :=
  match p with
  | d :: _ :: _ => String.eqb d top
  | _ => false
  end.

Definition find_keywords_base_files (t : tree) : list file :=
  filter (λ f, below "programming-languages" (rel f)
               && String.eqb (name (rel f)) "keywords-base.json") t.

Definition find_translation_files (t : tree) : list file :=
  filter (λ f, below "natural-languages" (rel f)
               && endswith (name (rel f)) ".json"
               && negb (bool_decide (name (rel f) ∈ SKIP_FILES))) t.

(** [ROOT.rglob("*.json")] *)
Definition all_json_files (t : tree) : list file :=
  filter (λ f, endswith (name (rel f)) ".json") t.

(** ** Findings

    One constructor per message the script formats; the comment gives the
    text after the leading ["  {rel}: "]. *)

Inductive error :=
| SyntaxError (rel : list string) (msg : string)
    (* {e} *)
| RootNotObject (rel : list string)
    (* raiz deve ser um objeto *)
| ExtraRootProperties (rel : list string) (extra_root : gset string)
    (* propriedades extra na raiz: {extra_root} *)
| MissingField (rel : list string) (field : string)
    (* campo obrigatorio '{field}' em falta *)
| KeywordsNotObject (rel : list string)
    (* 'keywords' deve ser um objeto *)
| KeyPatternMismatch (rel : list string) (key : string)
    (* chave '{key}' nao corresponde ao pattern ^[a-z]+$ *)
| ValueNotNatural (rel : list string) (key : string) (value : json)
    (* valor de '{key}' deve ser um inteiro >= 0, encontrado: {value} *)
| FieldNotString (rel : list string) (field : string)
    (* '{field}' deve ser uma string *)
| TranslationsNotObject (rel : list string)
    (* 'translations' deve ser um objeto *)
| IdPatternMismatch (rel : list string) (key : string)
    (* chave de traducao '{key}' nao corresponde ao pattern ^[0-9]+$ *)
| TranslationNotString (rel : list string) (key : string)
    (* traducao para ID '{key}' deve ser uma string *)
| TranslationEmpty (rel : list string) (key : string)
    (* traducao para ID '{key}' esta vazia *)
| NoKeywordsBase (rel : list string) (prog_lang : string)
    (* linguagem de programacao '{prog_lang}' sem keywords-base correspondente *)
| MissingIds (rel : list string) (ids : string)
    (* IDs em falta: {', '.join(sorted_missing)} *)
| ExtraIds (rel : list string) (ids : string)
    (* IDs extras (nao existem no keywords-base): {', '.join(sorted_extra)} *)
| DuplicateTranslation (rel : list string) (translated_word first_id id_key : string).
    (* traducao duplicada '{translated_word}' usada nos IDs {first_id} e {id_key} *)

(** ** 1. JSON syntax *)

(** [try: json.load(f)  except json.JSONDecodeError as e: errors.append(...)]:
    any other exception leaves the function. *)
Definition validate_json_syntax (files : list file) : result (list error) :=
  for_extend (λ f, match json_load f with
                   | Ok _ => Ok []
                   | Raise (JSONDecodeError msg) => Ok [SyntaxError (rel f) msg]
                   | Raise e => Raise e
                   end) files.

(** ** 2. Schemas *)

(** [isinstance(value, int)]: [bool] is a subclass of [int], with [True]
    and [False] behaving as 1 and 0. *)
Definition as_int (value : json) : option Z :=
  match value with
  | JInt n => Some n
  | JBool b => Some (if b then 1 else 0)
  | _ => None
  end.

(** [not isinstance(value, int) or value < 0] *)
Definition not_natural (value : json) : bool :=
  match as_int value with
  | Some n => n <? 0
  | None => true
  end.

(** The body of the loop over [keywords.items()]. *)
Definition keyword_entry_errors (rel : list string) (kv : string * json)
  : list error :=
  (if KEYWORD_PATTERN kv.1 then [] else [KeyPatternMismatch rel kv.1])
  ++ (if not_natural kv.2 then [ValueNotNatural rel kv.1 kv.2] else []).

Definition extra_root_errors (rel : list string) (extra_root : gset string)
  : list error :=
  if decide (extra_root = ∅) then [] else [ExtraRootProperties rel extra_root].

Definition validate_keyword_table_schema (rel : list string) (data : json)
  : list error :=
  match data with
  | JObj d =>
      let errors := extra_root_errors rel (key_set d ∖ {[ "keywords" ]}) in
      match dict_get d "keywords" with
      | None => errors ++ [MissingField rel "keywords"]
      | Some (JObj keywords) =>
          errors ++ flat_map (keyword_entry_errors rel) keywords
      | Some _ => errors ++ [KeywordsNotObject rel]
      end
  | _ => [RootNotObject rel]
  end.

Definition required_fields : list string :=
  ["version"; "languageCode"; "languageName"; "programmingLanguage"; "translations"].

Definition string_fields : list string :=
  ["version"; "languageCode"; "languageName"; "programmingLanguage"].

(** The body of the loop over [translations.items()]. *)
Definition translation_entry_errors (rel : list string) (kv : string * json)
  : list error :=
  (if ID_PATTERN kv.1 then [] else [IdPatternMismatch rel kv.1])
  ++ match kv.2 with
     | JStr value =>
         if (String.length value <? 1)%nat then [TranslationEmpty rel kv.1] else []
     | _ => [TranslationNotString rel kv.1]
     end.

Definition validate_translation_schema (rel : list string) (data : json)
  : list error :=
  match data with
  | JObj d =>
      let errors :=
        flat_map (λ field, match dict_get d field with
                           | None => [MissingField rel field]
                           | Some _ => []
                           end) required_fields
        ++ extra_root_errors rel (key_set d ∖ list_to_set required_fields)
        ++ flat_map (λ field, match dict_get d field with
                              | None | Some (JStr _) => []
                              | Some _ => [FieldNotString rel field]
                              end) string_fields in
      match dict_get d "translations" with
      | None => errors
      | Some (JObj translations) =>
          errors ++ flat_map (translation_entry_errors rel) translations
      | Some _ => errors ++ [TranslationsNotObject rel]
      end
  | _ => [RootNotObject rel]
  end.

Definition validate_schemas (t : tree) : result (list error) :=
  e1 ← for_extend (λ f, data ← json_load f;
                         Ok (validate_keyword_table_schema (rel f) data))
                  (find_keywords_base_files t);
  e2 ← for_extend (λ f, data ← json_load f;
                         Ok (validate_translation_schema (rel f) data))
                  (find_translation_files t);
  Ok (e1 ++ e2).

(** ** 3. Completeness *)

(** [set(str(v) for v in data.get("keywords", {}).values())] *)
Definition keyword_ids (data : json) : result (gset string) :=
  match data with
  | JObj d =>
      match default (JObj []) (dict_get d "keywords") with
      | JObj keywords =>
          ids ← for_list py_str keywords.*2;
          Ok (list_to_set ids)
      | _ => Raise AttributeError
      end
  | _ => Raise AttributeError
  end.

(** The first loop: [prog_langs[kb_path.parent.name] = ids]. *)
Definition add_prog_lang (prog_langs : gmap string (gset string)) (f : file)
  : result (gmap string (gset string)) :=
  data ← json_load f;
  ids ← keyword_ids data;
  Ok (<[parent_name (rel f) := ids]> prog_langs).

Definition load_prog_langs (t : tree) : result (gmap string (gset string)) :=
  for_state add_prog_lang (find_keywords_base_files t) ∅.

(** [if ids: errors.append(report(', '.join(sorted(ids, key=int))))] *)
Definition id_list_errors (report : string → error) (ids : gset string)
  : result (list error) :=
  if decide (ids = ∅) then Ok []
  else sorted_ids ← sorted_key_int (elements ids);
       Ok [report (join ", " sorted_ids)].

(** The body of the second loop, for one translation file. *)
Definition translation_completeness (prog_langs : gmap string (gset string))
    (f : file) : result (list error) :=
  data ← json_load f;
  match data with
  | JObj d =>
      match default (JStr "") (dict_get d "programmingLanguage") with
      | JStr s =>
          let prog_lang := lower s in
          match prog_langs !! prog_lang with
          | None => Ok [NoKeywordsBase (rel f) prog_lang]
          | Some base_ids =>
              match default (JObj []) (dict_get d "translations") with
              | JObj translations =>
                  let translation_ids := key_set translations in
                  let missing := base_ids ∖ translation_ids in
                  let extra := translation_ids ∖ base_ids in
                  e1 ← id_list_errors (MissingIds (rel f)) missing;
                  e2 ← id_list_errors (ExtraIds (rel f)) extra;
                  Ok (e1 ++ e2)
              | _ => Raise AttributeError
              end
          end
      | _ => Raise AttributeError
      end
  | _ => Raise AttributeError
  end.

Definition validate_completeness (t : tree) : result (list error) :=
  prog_langs ← load_prog_langs t;
  for_extend (translation_completeness prog_langs) (find_translation_files t).

(** ** 4. Uniqueness *)

(** The loop over [translations.items()], with the dictionary [seen]. *)
Fixpoint duplicate_errors (rel : list string) (translations : dict)
    (seen : gmap string string) : list error :=
  match translations with
  | [] => []
  | (id_key, JStr translated_word) :: rest =>
      if String.eqb translated_word "" then duplicate_errors rel rest seen
      else
        let lower_word := lower translated_word in
        match seen !! lower_word with
        | Some first_id =>
            DuplicateTranslation rel translated_word first_id id_key
            :: duplicate_errors rel rest seen
        | None => duplicate_errors rel rest (<[lower_word := id_key]> seen)
        end
  | _ :: rest => duplicate_errors rel rest seen
  end.

(** The body of the loop over the translation files. *)
Definition translation_uniqueness (f : file) : result (list error) :=
  data ← json_load f;
  match data with
  | JObj d =>
      match default (JObj []) (dict_get d "translations") with
      | JObj translations => Ok (duplicate_errors (rel f) translations ∅)
      | _ => Raise AttributeError
      end
  | _ => Raise AttributeError
  end.

Definition validate_uniqueness (t : tree) : result (list error) :=
  for_extend translation_uniqueness (find_translation_files t).

(** ** The driver *)

(** What [main] prints, line by line. *)
Inductive line :=
| Rule                  (* "=" * 60 *)
| Title                 (* Validacao de traducoes - babel-tcc-translations *)
| Blank
| Stage (n : nat)       (* [n/4] Validacao de ... *)
| Failed                (* FALHOU: *)
| Report (e : error)    (* print(e) *)
| Passed (n : nat)      (* OK - ..., the success line of stage n *)
| FilesValid (count : nat)  (* OK - {count} ficheiros JSON validos *)
| Aborting              (* Abortando validacoes restantes ... *)
| Total (total : nat)   (* RESULTADO: {total} erro(s) encontrado(s) *)
| AllPassed.            (* RESULTADO: Todas as validacoes passaram! *)

(** How the process ends: [sys.exit(code)], or an exception nobody caught. *)
Inductive ending :=
| Exit (code : Z)
| Uncaught (e : exn).

Record run := Run { stdout : list line; ending_of : ending }.

(** The exit status of the process: the interpreter turns an uncaught
    exception into status 1. *)
Definition exit_code (r : run) : Z :=
  match ending_of r with
  | Exit code => code
  | Uncaught _ => 1
  end.

Definition nonempty {A} (l : list A) : bool :=
  match l with
  | [] => false
  | _ :: _ => true
  end.

(** [print("  FALHOU:"); for e in errors: print(e)] *)
Definition failed_lines (errors : list error) : list line :=
  Failed :: (Report <$> errors).

Definition main (t : tree) : run :=
  let out := [Rule; Title; Rule; Blank] in
  let all_json_files := all_json_files t in
  let has_errors := false in
  (* 1. *)
  let out := out ++ [Stage 1] in
  match validate_json_syntax all_json_files with
  | Raise e => Run out (Uncaught e)
  | Ok syntax_errors =>
  let has_errors := if nonempty syntax_errors then true else has_errors in
  let out := out ++ (if nonempty syntax_errors then failed_lines syntax_errors
                     else [FilesValid (length all_json_files)]) ++ [Blank] in
  if nonempty syntax_errors then Run (out ++ [Aborting]) (Exit 1)
  else
  (* 2. *)
  let out := out ++ [Stage 2] in
  match validate_schemas t with
  | Raise e => Run out (Uncaught e)
  | Ok schema_errors =>
  let has_errors := if nonempty schema_errors then true else has_errors in
  let out := out ++ (if nonempty schema_errors then failed_lines schema_errors
                     else [Passed 2]) ++ [Blank] in
  (* 3. *)
  let out := out ++ [Stage 3] in
  match validate_completeness t with
  | Raise e => Run out (Uncaught e)
  | Ok completeness_errors =>
  let has_errors := if nonempty completeness_errors then true else has_errors in
  let out := out ++ (if nonempty completeness_errors
                     then failed_lines completeness_errors
                     else [Passed 3]) ++ [Blank] in
  (* 4. *)
  let out := out ++ [Stage 4] in
  match validate_uniqueness t with
  | Raise e => Run out (Uncaught e)
  | Ok uniqueness_errors =>
  let has_errors := if nonempty uniqueness_errors then true else has_errors in
  let out := out ++ (if nonempty uniqueness_errors
                     then failed_lines uniqueness_errors
                     else [Passed 4]) ++ [Blank] in
  let out := out ++ [Rule] in
  if has_errors then
    let total := (length syntax_errors + length schema_errors
                  + length completeness_errors + length uniqueness_errors)%nat in
    Run (out ++ [Total total; Rule]) (Exit 1)
  else Run (out ++ [AllPassed; Rule]) (Exit 0)
  end end end end.

(** ** Notions the statements below use *)

(** Path components are never empty: a property of every file system. *)
Definition tree_wf (t : tree) : Prop := Forall (λ f, "" ∉ rel f) t.

(** [a] comes before [b] in numeric order: both read as integers, and the
    value of [a] is at most that of [b]. *)
Definition int_le (a b : string) : Prop :=
  match Py.int a, Py.int b with
  | Some m, Some n => m ≤ n
  | _, _ => False
  end.

(** The order of the keys under which [sorted] arranges the IDs. *)
Definition key_le (a b : Z * string) : Prop := a.1 ≤ b.1.

(** Every character of [s] is in the class [cls]. *)
Fixpoint all_in_class (cls : ascii → bool) (s : string) : bool :=
  match s with
  | EmptyString => true
  | String c r => cls c && all_in_class cls r
  end.

(** The entire key consists of one or more lowercase ASCII letters. *)
Definition lowercase_letters_only (key : string) : bool :=
  negb (String.eqb key "") && all_in_class is_lower_az key.

(** The value is a JSON integer greater than or equal to 0. *)
Definition integer_ge_0 (value : json) : bool :=
  match value with
  | JInt n => 0 <=? n
  | _ => false
  end.

Definition is_value_error_for (key : string) (e : error) : bool :=
  match e with
  | ValueNotNatural _ k _ => String.eqb k key
  | _ => false
  end.

(** *** Duplicate words, following the words of the specification

    The entries of a translations mapping that the uniqueness check looks
    at: those whose value is a non-empty string, as (ID, word) pairs in
    the order of the document. *)
Fixpoint usable_entries (translations : dict) : list (string * string) :=
  match translations with
  | [] => []
  | (id_key, JStr word) :: rest =>
      if String.eqb word "" then usable_entries rest
      else (id_key, word) :: usable_entries rest
  | _ :: rest => usable_entries rest
  end.

(** The ID that first introduced the lower-cased word [lower_word] among
    the entries [earlier]. *)
Fixpoint first_introduced (earlier : list (string * string)) (lower_word : string)
  : option string :=
  match earlier with
  | [] => None
  | (id_key, word) :: rest =>
      if String.eqb (lower word) lower_word then Some id_key
      else first_introduced rest lower_word
  end.

(** One duplicate error for every entry whose lower-cased word an earlier
    entry already introduced, naming the word as written, the ID of the
    first entry with that lower-cased word, and the entry's own ID. *)
Fixpoint reported_duplicates (rel : list string)
    (earlier entries : list (string * string)) : list error :=
  match entries with
  | [] => []
  | (id_key, word) :: rest =>
      match first_introduced earlier (lower word) with
      | Some first_id => [DuplicateTranslation rel word first_id id_key]
      | None => []
      end ++ reported_duplicates rel (earlier ++ [(id_key, word)]) rest
  end.


(** The number of characters at the start of [s] that are in the class:
    for a key that [ID_PATTERN] accepts, the number of its digits. *)
Definition leading (cls : ascii → bool) (s : string) : nat :=
  String.length s - String.length (skip_class cls s).

(** ** Sample repositories *)

Definition keywords_file (lang : string) (data : json) : file :=
  File ["programming-languages"; lang; "keywords-base.json"] (Document data).

Definition translation_file (file_name : string) (data : json) : file :=
  File ["natural-languages"; "pt"; file_name] (Document data).

Definition keywords_doc (keywords : dict) : json := JObj [("keywords", JObj keywords)].

Definition translation_fields (fields : dict) (translations : json) : dict :=
  [("version", JStr "1.0"); ("languageCode", JStr "pt");
   ("languageName", JStr "Portuguese")]
  ++ fields ++ [("translations", translations)].

Definition translation_doc (fields : dict) (translations : json) : json :=
  JObj (translation_fields fields translations).

Definition for_python : dict := [("programmingLanguage", JStr "python")].

Definition python_keywords : file :=
  keywords_file "python" (keywords_doc [("loop", JInt 1); ("func", JInt 2)]).

(** The passing scenario of the specification. *)
Definition complete_tree : tree :=
  [ python_keywords;
    translation_file "python.json"
      (translation_doc for_python (JObj [("1", JStr "repetir"); ("2", JStr "funcao")])) ].


(** A keyword whose name ends in a line feed, and a keyword whose ID is a
    JSON boolean. *)
Definition loop_newline : string := "loop" +:+ String newline "".

Definition newline_key_doc : json := keywords_doc [(loop_newline, JInt 1)].

Definition boolean_id_doc : json := keywords_doc [("loop", JBool true)].

(** A translation with a key that is not a number, followed by a
    translation that misses the ID 2. *)
Definition a_json : file :=
  translation_file "a.json"
    (translation_doc for_python
       (JObj [("1", JStr "repetir"); ("2", JStr "funcao"); ("x", JStr "y")])).

Definition b_json : file :=
  translation_file "b.json"
    (translation_doc for_python (JObj [("1", JStr "repetir")])).

Definition non_numeric_key_tree : tree := [python_keywords; a_json; b_json].

(** A translation whose [translations] field is an array. *)
Definition array_translations_tree : tree :=
  [python_keywords; translation_file "a.json" (translation_doc for_python (JArr []))].

(** One word written three ways, with a non-string and an empty value in
    between. *)
Definition loops_translations : dict :=
  [("1", JStr "Loop"); ("2", JStr "loop"); ("3", JInt 5);
   ("4", JStr ""); ("5", JStr "LOOP"); ("6", JStr "laco")].

Definition loops_json : file :=
  translation_file "loops.json"
    (translation_doc for_python (JObj loops_translations)).

(** The keyword base lives in a directory named with a capital letter. *)
Definition capital_dir_tree : tree :=
  [ keywords_file "Python" (keywords_doc [("loop", JInt 1); ("func", JInt 2)]);
    translation_file "python.json"
      (translation_doc [("programmingLanguage", JStr "Python")]
         (JObj [("1", JStr "repetir"); ("2", JStr "funcao")])) ].

(** The field is written in capitals, the directory in lowercase. *)
Definition capital_field_json : file :=
  translation_file "python.json"
    (translation_doc [("programmingLanguage", JStr "PYTHON")]
       (JObj [("1", JStr "repetir"); ("2", JStr "funcao")])).

(** A translation without the [programmingLanguage] field. *)
Definition no_language_json : file :=
  translation_file "python.json"
    (translation_doc [] (JObj [("1", JStr "repetir"); ("2", JStr "funcao")])).

(** IDs missing on one side and extra on the other. *)
Definition uneven_translations : dict :=
  [("2", JStr "funcao"); ("10", JStr "dez"); ("9", JStr "nove"); ("100", JStr "cem")].

Definition uneven_json : file :=
  translation_file "python.json"
    (translation_doc for_python (JObj uneven_translations)).

Definition python_prog_langs : gmap string (gset string) :=
  {[ "python" := {[ "1"; "2" ]} ]}.

(** The schema check finds nothing in this tree. *)
Definition boolean_id_tree : tree :=
  [ keywords_file "python" boolean_id_doc;
    translation_file "python.json" (translation_doc for_python (JObj [])) ].

(** Two keywords bases in directories of the same name. *)
Definition nested_python_keywords : file :=
  File ["programming-languages"; "new"; "python"; "keywords-base.json"]
    (Document (keywords_doc [("loop", JInt 7)])).

(** The keys of the passing scenario in another order. *)
Definition reordered_translations : dict :=
  [("2", JStr "funcao"); ("1", JStr "repetir")].

Definition reordered_json : file :=
  translation_file "python.json"
    (translation_doc for_python (JObj reordered_translations)).

(** A translation that only names its programming language. *)
Definition bare_json : file :=
  File ["natural-languages"; "pt"; "python.json"] (Document (JObj for_python)).

(** The authoring template is not valid JSON. *)
Definition broken_template : file :=
  File ["natural-languages"; "template.json"] (Malformed "Expecting value").



(** * Properties *)

(** ** Loops that stop at the first exception *)

Lemma for_extend_Ok_Forall2 {A E} (body : A → result (list E)) (l : list A)
    (es : list E) :
  for_extend body l = Ok es ↔
  ∃ ess, Forall2 (λ x ex, body x = Ok ex) l ess ∧ es = concat ess.
Proof.
  revert es. induction l as [|x l IH]; simpl; intros es.
  - split.
    + intros [= <-]. exists []. by split; [constructor|].
    + intros (ess & H & ->). by inv H.
  - split.
    + destruct (body x) as [ex|] eqn:Hx; simpl; [|done].
      destruct (for_extend body l) as [el|] eqn:Hl; simpl; [|done].
      intros [= <-]. destruct (proj1 (IH el) eq_refl) as (ess & H & ->).
      exists (ex :: ess). by split; [constructor|].
    + intros (ess & H & ->).
      destruct ess as [|ex ess]; [by inv H|].
      apply Forall2_cons in H as [Hx H]. simpl. rewrite Hx. simpl.
      rewrite (proj2 (IH (concat ess))); [done|]. eauto.
Qed.

Lemma for_extend_Raise {A E} (body : A → result (list E)) (l : list A) (e : exn) :
  for_extend body l = Raise e → ∃ x, x ∈ l ∧ body x = Raise e.
Proof.
  induction l as [|x l IH]; simpl; [done|].
  destruct (body x) as [ex|e'] eqn:Hx; simpl.
  - destruct (for_extend body l) as [el|e'] eqn:Hl; simpl; [done|].
    intros [= <-]. destruct (IH eq_refl) as (y & Hy & Hr).
    exists y. by split; [right|].
  - intros [= <-]. exists x. by split; [left|].
Qed.

Lemma for_extend_all_Ok {A E} (body : A → result (list E)) (l : list A) :
  (∀ x, x ∈ l → ∃ ex, body x = Ok ex) → ∃ es, for_extend body l = Ok es.
Proof.
  intros H. destruct (for_extend body l) as [es|e] eqn:Hl; [eauto|].
  apply for_extend_Raise in Hl as (x & Hx & Hr).
  destruct (H x Hx) as [ex Hex]. congruence.
Qed.

Lemma for_state_Raise {A S} (body : S → A → result S) (l : list A) (s : S) (e : exn) :
  for_state body l s = Raise e → ∃ s' x, x ∈ l ∧ body s' x = Raise e.
Proof.
  revert s. induction l as [|x l IH]; simpl; intros s; [done|].
  destruct (body s x) as [s'|e'] eqn:Hx; simpl.
  - intros H. destruct (IH _ H) as (s'' & y & Hy & Hr).
    exists s'', y. by split; [right|].
  - intros [= <-]. exists s, x. by split; [left|].
Qed.

Lemma flat_map_nil {A B} (f : A → list B) (l : list A) :
  flat_map f l = [] ↔ ∀ x, x ∈ l → f x = [].
Proof.
  induction l as [|x l IH]; simpl.
  - split; [|done]. by intros _ ? ?%elem_of_nil.
  - rewrite app_nil, IH. split.
    + intros [Hx Hl] y [->|Hy]%elem_of_cons; auto.
    + intros H. split; [apply H; by left|]. intros y Hy. apply H. by right.
Qed.

Lemma for_extend_Ok_inv {A E} (body : A → result (list E)) (l : list A)
    (es : list E) (x : A) :
  for_extend body l = Ok es → x ∈ l →
  ∃ ex before after, body x = Ok ex ∧ es = before ++ ex ++ after.
Proof.
  revert es. induction l as [|y l IH]; simpl; intros es Hes Hx.
  - by apply elem_of_nil in Hx.
  - destruct (body y) as [ey|] eqn:Hy; [|done]. simpl in Hes.
    destruct (for_extend body l) as [el|] eqn:Hl; [|done]. simpl in Hes.
    injection Hes as <-.
    apply elem_of_cons in Hx as [->|Hx].
    + exists ey, [], el. by rewrite Hy.
    + destruct (IH el eq_refl Hx) as (ex & before & after & Hb & ->).
      exists ex, (ey ++ before), after. by rewrite Hb, <- app_assoc.
Qed.

Lemma for_extend_Ok_elem_of {A E} (body : A → result (list E)) (l : list A)
    (es : list E) (e : E) :
  for_extend body l = Ok es →
  e ∈ es ↔ ∃ x ex, x ∈ l ∧ body x = Ok ex ∧ e ∈ ex.
Proof.
  intros (ess & F & ->)%for_extend_Ok_Forall2.
  induction F as [|x ex l ess Hx F IH]; simpl.
  - split; [by intros ?%elem_of_nil|]. by intros (? & ? & ?%elem_of_nil & _).
  - rewrite elem_of_app, IH. split.
    + intros [H|(y & ey & Hy & Hb & He)].
      * exists x, ex. by split; [left|].
      * exists y, ey. by split; [right|].
    + intros (y & ey & [->|Hy]%elem_of_cons & Hb & He).
      * left. congruence.
      * right. by exists y, ey.
Qed.

Lemma for_list_Ok_Forall2 {A B} (f : A → result B) (l : list A) (ys : list B) :
  for_list f l = Ok ys ↔ Forall2 (λ x y, f x = Ok y) l ys.
Proof.
  revert ys. induction l as [|x l IH]; simpl; intros ys.
  - split; [intros [= <-]; constructor | by intros ->%Forall2_nil_inv_l].
  - split.
    + destruct (f x) as [y|] eqn:Hx; simpl; [|done].
      destruct (for_list f l) as [ys'|] eqn:Hl; simpl; [|done].
      intros [= <-]. constructor; [done|]. by apply IH.
    + intros (y & ys' & Hx & Hl & ->)%Forall2_cons_inv_l.
      rewrite Hx. simpl. apply IH in Hl. by rewrite Hl.
Qed.

(** ** The syntax gate *)

Lemma nonempty_true {A} (l : list A) : nonempty l = true ↔ l ≠ [].
Proof. destruct l; simpl; split; congruence. Qed.

Lemma nonempty_false {A} (l : list A) : nonempty l = false ↔ l = [].
Proof. destruct l; simpl; split; congruence. Qed.

Lemma elem_of_all_json_files (t : tree) (f : file) :
  f ∈ all_json_files t ↔ f ∈ t ∧ endswith (name (rel f)) ".json" = true.
Proof.
  unfold all_json_files. rewrite list_elem_of_filter.
  destruct (endswith _ _); simpl; intuition congruence.
Qed.

(** What the syntax check returns, when it returns: one error for every
    file on which [json.load] raised [JSONDecodeError]. *)
Lemma validate_json_syntax_Ok (files : list file) (errors : list error) (e : error) :
  validate_json_syntax files = Ok errors →
  e ∈ errors ↔
  ∃ f msg, f ∈ files ∧ json_load f = Raise (JSONDecodeError msg)
           ∧ e = SyntaxError (rel f) msg.
Proof.
  intros H. unfold validate_json_syntax in H.
  rewrite (for_extend_Ok_elem_of _ _ _ _ H). split.
  - intros (f & ex & Hf & Hb & He).
    destruct (json_load f) as [data|[msg| | | | |]] eqn:Hl; try done;
      injection Hb as <-; [by apply elem_of_nil in He|].
    apply list_elem_of_singleton in He. by exists f, msg.
  - intros (f & msg & Hf & Hl & ->). exists f, [SyntaxError (rel f) msg].
    rewrite Hl. split; [done|]. split; [done|]. apply list_elem_of_here.
Qed.

(** The syntax check raises what [json.load] raised on one of the files,
    and never [JSONDecodeError]. *)
Lemma validate_json_syntax_Raise (files : list file) (e : exn) :
  validate_json_syntax files = Raise e →
  ∃ f, f ∈ files ∧ json_load f = Raise e ∧ ∀ msg, e ≠ JSONDecodeError msg.
Proof.
  intros (f & Hf & Hb)%for_extend_Raise. exists f. split; [done|].
  destruct (json_load f) as [data|[msg| | | | |]]; try done;
    injection Hb as <-; by split.
Qed.

Lemma validate_json_syntax_returns (files : list file) :
  (∀ f e, f ∈ files → json_load f = Raise e → ∃ msg, e = JSONDecodeError msg) →
  ∃ errors, validate_json_syntax files = Ok errors.
Proof.
  intros H. destruct (validate_json_syntax files) as [errors|e] eqn:Hs; [eauto|].
  apply validate_json_syntax_Raise in Hs as (f & Hf & Hl & Hne).
  destruct (H f e Hf Hl) as [msg ->]. by destruct (Hne msg).
Qed.

(** A file on which [json.load] raises leaves its mark on a syntax check
    that returns: the list is not empty, and holds the file's error. *)
Lemma syntax_errors_of_undecodable (files : list file) (f : file) (e : exn)
    (syntax_errors : list error) :
  f ∈ files → json_load f = Raise e →
  validate_json_syntax files = Ok syntax_errors →
  syntax_errors ≠ []
  ∧ ∀ msg, e = JSONDecodeError msg → SyntaxError (rel f) msg ∈ syntax_errors.
Proof.
  intros Hin Hl Hs.
  assert (Hmsg : ∀ msg, e = JSONDecodeError msg →
                        SyntaxError (rel f) msg ∈ syntax_errors).
  { intros msg ->. apply (validate_json_syntax_Ok _ _ _ Hs). by exists f, msg. }
  split; [|done]. intros ->.
  unfold validate_json_syntax in Hs.
  destruct (for_extend_Ok_inv _ _ _ _ Hs Hin) as (ex & before & after & Hb & _).
  rewrite Hl in Hb. destruct e as [msg| | | | |]; try done.
  specialize (Hmsg msg eq_refl). by apply elem_of_nil in Hmsg.
Qed.

Lemma main_syntax_errors (t : tree) (syntax_errors : list error) :
  validate_json_syntax (all_json_files t) = Ok syntax_errors →
  syntax_errors ≠ [] →
  main t = Run ([Rule; Title; Rule; Blank; Stage 1]
                ++ failed_lines syntax_errors ++ [Blank; Aborting]) (Exit 1).
Proof.
  intros Hs Hne. unfold main. rewrite Hs.
  apply nonempty_true in Hne. rewrite Hne. f_equal. by rewrite <- !app_assoc.
Qed.

Lemma main_syntax_raises (t : tree) (e : exn) :
  validate_json_syntax (all_json_files t) = Raise e →
  main t = Run [Rule; Title; Rule; Blank; Stage 1] (Uncaught e).
Proof. intros Hs. unfold main. by rewrite Hs. Qed.




(** ** The exit code *)

(** C6. The process exits with code 0 exactly when the syntax check, the
    schema check, the completeness check and the uniqueness check all return
    an empty list of errors; in every other case it exits with code 1. *)
Theorem C6_exit_code (t : tree) :
  (exit_code (main t) = 0 ↔
     validate_json_syntax (all_json_files t) = Ok []
     ∧ validate_schemas t = Ok []
     ∧ validate_completeness t = Ok []
     ∧ validate_uniqueness t = Ok [])
  ∧ (exit_code (main t) ≠ 0 → exit_code (main t) = 1).
Proof.
  unfold main, exit_code.
  destruct (validate_json_syntax (all_json_files t)) as [[|e1 l1]|x1];
    destruct (validate_schemas t) as [[|e2 l2]|x2];
    destruct (validate_completeness t) as [[|e3 l3]|x3];
    destruct (validate_uniqueness t) as [[|e4 l4]|x4]; simpl;
    (split; [split; [try done; intros _; by repeat split
                    | try done; intros (? & ? & ? & ?); congruence]
            | try done; intros H; by destruct H]).
Qed.

(** ** Dictionaries and loops *)

Lemma elem_of_flat_map {A B} (f : A → list B) (l : list A) (y : B) :
  y ∈ flat_map f l ↔ ∃ x, x ∈ l ∧ y ∈ f x.
Proof.
  rewrite list_elem_of_In, in_flat_map.
  split; intros (x & Hx & Hy); exists x; by rewrite ?list_elem_of_In in *.
Qed.

Lemma dict_wf_unique (d : dict) (key : string) (v1 v2 : json) :
  dict_wf d → (key, v1) ∈ d → (key, v2) ∈ d → v1 = v2.
Proof.
  unfold dict_wf. induction d as [|[k v] d IH]; simpl; intros Hnd H1 H2.
  - by apply elem_of_nil in H1.
  - apply NoDup_cons in Hnd as [Hk Hnd].
    apply elem_of_cons in H1 as [H1|H1]; apply elem_of_cons in H2 as [H2|H2].
    + congruence.
    + injection H1 as -> ->. destruct Hk.
      apply list_elem_of_fmap. by exists (k, v2).
    + injection H2 as -> ->. destruct Hk.
      apply list_elem_of_fmap. by exists (k, v1).
    + by apply IH.
Qed.

(** ** The translation schema: empty and non-string values *)

Lemma elem_of_translation_entry_errors_not_string rel kv key :
  TranslationNotString rel key ∈ translation_entry_errors rel kv ↔
  kv.1 = key ∧ ∀ s, kv.2 ≠ JStr s.
Proof.
  destruct kv as [k v]. unfold translation_entry_errors. simpl.
  rewrite elem_of_app. split.
  - intros [H|H].
    + destruct (ID_PATTERN k); [by apply elem_of_nil in H|].
      by apply list_elem_of_singleton in H.
    + destruct v; try (apply list_elem_of_singleton in H; by injection H as ->).
      destruct (_ <? _)%nat; [by apply list_elem_of_singleton in H
                             | by apply elem_of_nil in H].
  - intros [-> Hv]. right.
    destruct v; try apply list_elem_of_here. by destruct (Hv s).
Qed.

Lemma elem_of_translation_entry_errors_empty rel kv key :
  TranslationEmpty rel key ∈ translation_entry_errors rel kv ↔
  kv.1 = key ∧ kv.2 = JStr "".
Proof.
  destruct kv as [k v]. unfold translation_entry_errors. simpl.
  rewrite elem_of_app. split.
  - intros [H|H].
    + destruct (ID_PATTERN k); [by apply elem_of_nil in H|].
      by apply list_elem_of_singleton in H.
    + destruct v; try by apply list_elem_of_singleton in H.
      destruct s as [|c s]; simpl in H.
      * apply list_elem_of_singleton in H. by injection H as ->.
      * by apply elem_of_nil in H.
  - intros [-> ->]. right. apply list_elem_of_here.
Qed.

Lemma elem_of_translation_schema_entries rel d translations e :
  dict_get d "translations" = Some (JObj translations) →
  (∃ key, e = TranslationNotString rel key ∨ e = TranslationEmpty rel key) →
  e ∈ validate_translation_schema rel (JObj d) ↔
  ∃ kv, kv ∈ translations ∧ e ∈ translation_entry_errors rel kv.
Proof.
  intros Hd (key & He). unfold validate_translation_schema. rewrite Hd.
  rewrite !elem_of_app, !elem_of_flat_map. split; [|tauto].
  intros [[H|[H|H]]|H]; [exfalso..|done].
  - destruct H as (x & _ & H).
    destruct (dict_get d x); [by apply elem_of_nil in H|].
    apply list_elem_of_singleton in H. destruct He; congruence.
  - unfold extra_root_errors in H.
    destruct (decide _); [by apply elem_of_nil in H|].
    apply list_elem_of_singleton in H. destruct He; congruence.
  - destruct H as (x & _ & H).
    destruct (dict_get d x) as [[]|];
      try (by apply elem_of_nil in H);
      apply list_elem_of_singleton in H; destruct He; congruence.
Qed.

(** C9. In the translations mapping of a translation document, a key whose
    value is not a string gets the must-be-a-string error, a key whose value
    is the string of length 0 gets the is-empty error, these are two
    different errors, and no key gets both. *)
Theorem C9_empty_and_not_string_are_distinct
    (rel : list string) (d translations : dict) (key : string) (value : json) :
  dict_get d "translations" = Some (JObj translations) →
  dict_wf translations →
  (key, value) ∈ translations →
  let errors := validate_translation_schema rel (JObj d) in
  (TranslationNotString rel key ∈ errors ↔ ∀ s, value ≠ JStr s)
  ∧ (TranslationEmpty rel key ∈ errors ↔
       ∃ s, value = JStr s ∧ String.length s = 0%nat)
  ∧ TranslationNotString rel key ≠ TranslationEmpty rel key
  ∧ ¬ (TranslationNotString rel key ∈ errors ∧ TranslationEmpty rel key ∈ errors).
Proof.
  intros Hd Hwf Hkv errors.
  assert (H1 : TranslationNotString rel key ∈ errors ↔ ∀ s, value ≠ JStr s).
  { unfold errors. rewrite (elem_of_translation_schema_entries _ _ _ _ Hd) by eauto.
    split.
    - intros ([k v] & Hin & H).
      apply elem_of_translation_entry_errors_not_string in H as [Hk Hv].
      simpl in *. subst k. by rewrite (dict_wf_unique _ _ _ _ Hwf Hkv Hin).
    - intros Hv. exists (key, value). split; [done|].
      by apply elem_of_translation_entry_errors_not_string. }
  assert (H2 : TranslationEmpty rel key ∈ errors ↔
               ∃ s, value = JStr s ∧ String.length s = 0%nat).
  { unfold errors. rewrite (elem_of_translation_schema_entries _ _ _ _ Hd) by eauto.
    split.
    - intros ([k v] & Hin & H).
      apply elem_of_translation_entry_errors_empty in H as [Hk Hv].
      simpl in *. subst k v. exists "".
      by rewrite (dict_wf_unique _ _ _ _ Hwf Hkv Hin).
    - intros (s & -> & Hs). destruct s; [|done].
      exists (key, JStr ""). split; [done|].
      by apply elem_of_translation_entry_errors_empty. }
  split; [done|]. split; [done|]. split; [done|].
  rewrite H1, H2. intros [Hns (s & -> & _)]. by destruct (Hns s).
Qed.

Lemma C9_empty_and_not_string_are_distinct_witness :
  let d := [("programmingLanguage", JStr "python");
            ("translations", JObj [("1", JStr ""); ("2", JInt 7)])] in
  let errors := validate_translation_schema ["natural-languages"; "pt.json"] (JObj d) in
  ¬ (TranslationNotString ["natural-languages"; "pt.json"] "1" ∈ errors
     ∧ TranslationEmpty ["natural-languages"; "pt.json"] "1" ∈ errors).
Proof.
  intros d errors.
  apply (C9_empty_and_not_string_are_distinct ["natural-languages"; "pt.json"] d
           [("1", JStr ""); ("2", JInt 7)] "1" (JStr "")).
  - reflexivity.
  - unfold dict_wf. simpl. apply NoDup_cons. split; [|apply NoDup_singleton].
    intros H. apply list_elem_of_singleton in H. discriminate.
  - apply list_elem_of_here.
Defined.

(** ** The keyword-table schema: keys and values *)

Lemma at_dollar_skip_class (cls : ascii → bool) (s : string) :
  cls newline = false →
  at_dollar (skip_class cls s) = true ↔
  all_in_class cls s = true
  ∨ ∃ k, s = k +:+ String newline "" ∧ all_in_class cls k = true.
Proof.
  intros Hnl. induction s as [|c r IH]; simpl.
  - split; [by left | done].
  - destruct (cls c) eqn:Hc; simpl.
    + rewrite IH. split; intros [H|(k & Hk & H)]; try by left.
      * right. exists (String c k). simpl. by rewrite Hk, Hc.
      * right. destruct k as [|c' k]; simpl in Hk.
        { injection Hk as -> _. congruence. }
        injection Hk as -> ->. simpl in H. rewrite Hc in H. by exists k.
    + split.
      * intros H. right. exists "". split; [|done].
        unfold at_dollar in H. simpl in H.
        destruct (Ascii.eqb_spec c newline) as [->|]; [|done].
        by destruct r.
      * intros [H|(k & Hk & H)]; [done|].
        destruct k as [|c' k]; simpl in Hk.
        { by injection Hk as -> ->. }
        injection Hk as -> ->. simpl in H. by rewrite Hc in H.
Qed.

(** What [KEYWORD_PATTERN.match] accepts: the keys made of lowercase
    letters only, and those keys followed by one line feed. *)
Lemma KEYWORD_PATTERN_accepts (key : string) :
  KEYWORD_PATTERN key = true ↔
  lowercase_letters_only key = true
  ∨ ∃ k, key = k +:+ String newline "" ∧ lowercase_letters_only k = true.
Proof.
  unfold KEYWORD_PATTERN, lowercase_letters_only, match_plus_dollar.
  destruct key as [|c r]; simpl.
  - split; [done|]. intros [H|(k & Hk & H)]; [done|]. by destruct k.
  - destruct (is_lower_az c) eqn:Hc; simpl.
    + rewrite at_dollar_skip_class by done.
      split; intros [H|(k & Hk & H)]; try by left.
      * right. exists (String c k). simpl. by rewrite Hk, Hc.
      * right. destruct k as [|c' k]; [done|]. simpl in Hk, H.
        injection Hk as -> ->. rewrite Hc in H. by exists k.
    + split; [done|]. intros [H|(k & Hk & H)]; [done|].
      destruct k as [|c' k]; [done|]. simpl in Hk, H.
      injection Hk as -> ->. by rewrite Hc in H.
Qed.

(** C7. The key "loop" followed by a line feed does not consist of
    lowercase letters only, yet [KEYWORD_PATTERN.match] accepts it and the
    keyword-table schema check reports nothing for the document. *)
Theorem C7_trailing_newline_key_accepted :
  lowercase_letters_only loop_newline = false
  ∧ KEYWORD_PATTERN loop_newline = true
  ∧ validate_keyword_table_schema
      ["programming-languages"; "python"; "keywords-base.json"] newline_key_doc = [].
Proof. by vm_compute. Qed.

(** The values for which no value error is reported: the integers that are
    at least 0, and the two booleans. *)
Lemma not_natural_false (value : json) :
  not_natural value = false ↔
  integer_ge_0 value = true ∨ ∃ b, value = JBool b.
Proof.
  unfold not_natural, integer_ge_0.
  destruct value as [|b|n| | | |]; simpl; try (split; [done|]; intros [?|[? ?]]; done).
  - split; [eauto|]. intros _. by destruct b.
  - rewrite Z.ltb_ge, Z.leb_le. split; [by left|]. by intros [?|[? ?]].
Qed.

Lemma value_errors_of_entry rel kv key :
  filter (is_value_error_for key) (keyword_entry_errors rel kv)
  = if String.eqb kv.1 key && not_natural kv.2
    then [ValueNotNatural rel kv.1 kv.2] else [].
Proof.
  destruct kv as [k v]. unfold keyword_entry_errors. simpl.
  rewrite filter_app.
  assert (filter (is_value_error_for key)
            (if KEYWORD_PATTERN k then [] else [KeyPatternMismatch rel k]) = []) as ->.
  { by destruct (KEYWORD_PATTERN k). }
  simpl. destruct (not_natural v); [|by rewrite andb_false_r].
  rewrite andb_true_r, filter_cons. simpl.
  by destruct (String.eqb k key).
Qed.

(** One value error for a key exactly when [not_natural] holds of its
    value, that is, unless the value is an integer that is at least 0 or a
    boolean. *)
Lemma value_errors_for_key rel (keywords : dict) key value :
  dict_wf keywords → (key, value) ∈ keywords →
  filter (is_value_error_for key) (flat_map (keyword_entry_errors rel) keywords)
  = if not_natural value then [ValueNotNatural rel key value] else [].
Proof.
  unfold dict_wf.
  assert (Hout : ∀ d : dict, key ∉ d.*1 →
            filter (is_value_error_for key)
              (flat_map (keyword_entry_errors rel) d) = []).
  { induction d as [|[k v] d IH]; simpl; [done|]. intros Hk.
    apply not_elem_of_cons in Hk as [Hne Hk].
    rewrite filter_app, value_errors_of_entry, (IH Hk). simpl.
    destruct (String.eqb_spec k key); [congruence | done]. }
  induction keywords as [|[k v] d IH]; simpl; intros Hnd Hin.
  - by apply elem_of_nil in Hin.
  - apply NoDup_cons in Hnd as [Hk Hnd].
    rewrite filter_app, value_errors_of_entry. simpl.
    apply elem_of_cons in Hin as [[= <- <-]|Hin].
    + rewrite String.eqb_refl, (Hout _ Hk). simpl.
      destruct (not_natural value); [done | done].
    + destruct (String.eqb_spec k key) as [->|Hne].
      * destruct Hk. apply list_elem_of_fmap. by exists (key, value).
      * simpl. by apply IH.
Qed.

(** C8. The JSON value [true] is not an integer, yet the keyword-table
    schema check reports no value error for a key that maps to it. *)
Theorem C8_boolean_value_accepted :
  integer_ge_0 (JBool true) = false
  ∧ validate_keyword_table_schema
      ["programming-languages"; "python"; "keywords-base.json"] boolean_id_doc = []
  ∧ filter (is_value_error_for "loop")
      (validate_keyword_table_schema
         ["programming-languages"; "python"; "keywords-base.json"] boolean_id_doc) = [].
Proof. by vm_compute. Qed.

(** A boolean ID passes the schema check and then stops the completeness
    check: its string form is "True", which does not read as an integer. *)
Lemma boolean_id_stops_completeness :
  validate_schemas boolean_id_tree = Ok []
  ∧ validate_completeness boolean_id_tree = Raise ValueError.
Proof. by vm_compute. Qed.

(** ** Checks that stop before the last file *)

(** C3. With every file decoding, a translation key that is not a number
    makes the completeness check raise [ValueError] at that file: the
    missing ID of the next file, which the check reports when the first file
    is left out, is never reported, and [main] ends in the exception.
    A [translations] field that is an array makes the uniqueness check raise
    [AttributeError] in the same way. *)
Theorem C3_checks_abort_on_decoded_input :
  validate_json_syntax (all_json_files non_numeric_key_tree) = Ok []
  ∧ validate_completeness non_numeric_key_tree = Raise ValueError
  ∧ validate_completeness [python_keywords; b_json]
    = Ok [MissingIds (rel b_json) "2"]
  ∧ ending_of (main non_numeric_key_tree) = Uncaught ValueError
  ∧ validate_json_syntax (all_json_files array_translations_tree) = Ok []
  ∧ validate_uniqueness array_translations_tree = Raise AttributeError.
Proof. by vm_compute. Qed.

(** C2. On the same tree every file decodes and the programming language of
    both translations resolves; [a.json] has the extra ID x and [b.json]
    lacks the ID 2, so the claim asks for one extra-IDs error and one
    missing-IDs error.  The completeness check reports neither: it raises
    [ValueError] when it sorts the extra IDs of [a.json]. *)
Theorem C2_no_report_for_resolved_translations :
  validate_json_syntax (all_json_files non_numeric_key_tree) = Ok []
  ∧ find_translation_files non_numeric_key_tree = [a_json; b_json]
  ∧ load_prog_langs non_numeric_key_tree = Ok python_prog_langs
  ∧ python_prog_langs !! lower "python" = Some {[ "1"; "2" ]}
  ∧ key_set [("1", JStr "repetir"); ("2", JStr "funcao"); ("x", JStr "y")]
      ∖ {[ "1"; "2" ]} = {[ "x" ]}
  ∧ {[ "1"; "2" ]} ∖ key_set [("1", JStr "repetir")] = {[ "2" ]}
  ∧ translation_completeness python_prog_langs a_json = Raise ValueError
  ∧ translation_completeness python_prog_langs b_json
    = Ok [MissingIds (rel b_json) "2"]
  ∧ validate_completeness non_numeric_key_tree = Raise ValueError.
Proof. repeat split; reflexivity. Qed.

(** ** Uniqueness *)

Lemma first_introduced_app (l1 l2 : list (string * string)) (k : string) :
  first_introduced (l1 ++ l2) k =
  match first_introduced l1 k with
  | Some first_id => Some first_id
  | None => first_introduced l2 k
  end.
Proof.
  induction l1 as [|[i w] l1 IH]; simpl; [done|].
  by destruct (String.eqb (lower w) k).
Qed.

(** The dictionary [seen] of the loop holds, for every lower-cased word, the
    ID that first introduced it among the entries visited so far. *)
Lemma duplicate_errors_reported (rel : list string) (translations : dict)
    (seen : gmap string string) (earlier : list (string * string)) :
  (∀ k, seen !! k = first_introduced earlier k) →
  duplicate_errors rel translations seen
  = reported_duplicates rel earlier (usable_entries translations).
Proof.
  revert seen earlier.
  induction translations as [|[id_key value] rest IH]; intros seen earlier Hseen;
    simpl; [done|].
  destruct value as [| | | |word| |]; try by apply IH.
  destruct (String.eqb word "") eqn:Hw; [by apply IH|]. simpl.
  rewrite <- Hseen.
  destruct (seen !! lower word) as [first_id|] eqn:Hl; simpl.
  - f_equal. apply IH. intros k. rewrite first_introduced_app, <- Hseen. simpl.
    destruct (seen !! k) eqn:Hk; [done|].
    destruct (String.eqb_spec (lower word) k) as [Heq|Hne]; [congruence | done].
  - apply IH. intros k. rewrite first_introduced_app, <- Hseen. simpl.
    destruct (String.eqb_spec (lower word) k) as [Heq|Hne].
    + subst k. by rewrite lookup_insert_eq, Hl.
    + rewrite lookup_insert_ne by done. by destruct (seen !! k).
Qed.

Lemma elem_of_reported_duplicates (rel : list string)
    (pre entries : list (string * string)) (e : error) :
  e ∈ reported_duplicates rel pre entries ↔
  ∃ earlier id_key word later first_id,
    entries = earlier ++ (id_key, word) :: later
    ∧ first_introduced (pre ++ earlier) (lower word) = Some first_id
    ∧ e = DuplicateTranslation rel word first_id id_key.
Proof.
  revert pre. induction entries as [|[i w] entries IH]; intros pre; simpl.
  - split; [by intros ?%elem_of_nil|].
    intros (earlier & ? & ? & ? & ? & H & _). by destruct earlier.
  - rewrite elem_of_app, IH. split.
    + intros [H|(earlier & i' & w' & later & a & -> & Ha & ->)].
      * destruct (first_introduced pre (lower w)) as [a|] eqn:Ha;
          [|by apply elem_of_nil in H].
        apply list_elem_of_singleton in H as ->.
        exists [], i, w, entries, a. by rewrite app_nil_r.
      * exists ((i, w) :: earlier), i', w', later, a.
        split; [done|]. split; [|done].
        by rewrite <- Ha, <- app_assoc.
    + intros (earlier & i' & w' & later & a & Heq & Ha & ->).
      destruct earlier as [|x earlier]; simpl in Heq.
      * injection Heq as -> -> ->. rewrite app_nil_r in Ha. rewrite Ha.
        left. apply list_elem_of_here.
      * injection Heq as -> ->. right.
        exists earlier, i', w', later, a. split; [done|]. split; [|done].
        by rewrite <- Ha, <- app_assoc.
Qed.

(** C4. For a translation document, the uniqueness check compares the
    lower-cased words, looks only at the entries whose value is a non-empty
    string, and reports, for every such entry whose lower-cased word an
    earlier entry introduced, one duplicate error with the word as written,
    the ID of the first entry with that lower-cased word and the entry's own
    ID; all the duplicates of one word name the same first ID. *)
Theorem C4_duplicates_against_first_seen
    (t : tree) (f : file) (d translations : dict) :
  f ∈ find_translation_files t →
  content f = Document (JObj d) →
  default (JObj []) (dict_get d "translations") = JObj translations →
  let entries := usable_entries translations in
  let errors := reported_duplicates (rel f) [] entries in
  translation_uniqueness f = Ok errors
  ∧ (∀ e, e ∈ errors ↔
        ∃ earlier id_key word later first_id,
          entries = earlier ++ (id_key, word) :: later
          ∧ first_introduced earlier (lower word) = Some first_id
          ∧ e = DuplicateTranslation (rel f) word first_id id_key)
  ∧ (∀ word1 first1 id1 word2 first2 id2,
        DuplicateTranslation (rel f) word1 first1 id1 ∈ errors →
        DuplicateTranslation (rel f) word2 first2 id2 ∈ errors →
        lower word1 = lower word2 → first1 = first2)
  ∧ (∀ all_errors, validate_uniqueness t = Ok all_errors →
        ∃ before after, all_errors = before ++ errors ++ after).
Proof.
  intros Hf Hc Hd entries errors.
  assert (Hrun : translation_uniqueness f = Ok errors).
  { unfold translation_uniqueness, json_load. rewrite Hc. simpl. rewrite Hd.
    f_equal. by apply duplicate_errors_reported. }
  assert (Hin : ∀ e, e ∈ errors ↔
        ∃ earlier id_key word later first_id,
          entries = earlier ++ (id_key, word) :: later
          ∧ first_introduced earlier (lower word) = Some first_id
          ∧ e = DuplicateTranslation (rel f) word first_id id_key).
  { intros e. unfold errors. by rewrite elem_of_reported_duplicates. }
  split; [done|]. split; [done|]. split.
  - intros w1 a1 c1 w2 a2 c2 H1 H2 Hlow.
    apply Hin in H1 as (e1 & ? & ? & l1 & ? & Heq1 & Ha1 & [= <- <- <-]).
    apply Hin in H2 as (e2 & ? & ? & l2 & ? & Heq2 & Ha2 & [= <- <- <-]).
    assert (first_introduced entries (lower w1) = Some a1) as E1.
    { by rewrite Heq1, first_introduced_app, Ha1. }
    assert (first_introduced entries (lower w1) = Some a2) as E2.
    { by rewrite Heq2, first_introduced_app, Hlow, Ha2. }
    congruence.
  - intros all_errors Hall.
    destruct (for_extend_Ok_inv _ _ _ _ Hall Hf) as (ex & b & a & Hex & ->).
    rewrite Hrun in Hex. injection Hex as <-. eauto.
Qed.

Lemma C4_duplicates_against_first_seen_witness :
  translation_uniqueness loops_json
  = Ok [DuplicateTranslation (rel loops_json) "loop" "1" "2";
        DuplicateTranslation (rel loops_json) "LOOP" "1" "5"].
Proof.
  apply (C4_duplicates_against_first_seen [python_keywords; loops_json] loops_json
           (translation_fields for_python (JObj loops_translations))
           loops_translations).
  - vm_compute. apply list_elem_of_here.
  - reflexivity.
  - reflexivity.
Defined.

(** ** The table of keyword bases *)

Lemma keyword_ids_Ok (data : json) (ids : gset string) :
  keyword_ids data = Ok ids →
  ∃ d keywords,
    data = JObj d
    ∧ default (JObj []) (dict_get d "keywords") = JObj keywords
    ∧ ∀ x, x ∈ ids ↔ ∃ key value, (key, value) ∈ keywords ∧ py_str value = Ok x.
Proof.
  unfold keyword_ids. destruct data as [| | | | | |d]; try done.
  destruct (default (JObj []) (dict_get d "keywords")) as [| | | | | |keywords] eqn:Hk;
    try done.
  destruct (for_list py_str keywords.*2) as [strs|] eqn:Hs; simpl; [|done].
  intros [= <-]. exists d, keywords. split; [done|]. split; [done|].
  apply for_list_Ok_Forall2 in Hs.
  intros x. rewrite elem_of_list_to_set. split.
  - intros Hx. apply list_elem_of_lookup in Hx as [i Hi].
    destruct (Forall2_lookup_r _ _ _ _ _ Hs Hi) as (v & Hv & Hstr).
    apply list_lookup_fmap_Some in Hv as ([k v'] & -> & Hkv).
    exists k, v'. split; [|done]. apply list_elem_of_lookup. eauto.
  - intros (k & v & Hkv & Hstr). apply list_elem_of_lookup in Hkv as [i Hi].
    assert (keywords.*2 !! i = Some v) as Hv
      by (apply list_lookup_fmap_Some; by exists (k, v)).
    destruct (Forall2_lookup_l _ _ _ _ _ Hs Hv) as (y & Hy & Hstr').
    apply list_elem_of_lookup. exists i. congruence.
Qed.

Lemma for_state_add_prog_lang (files : list file)
    (acc prog_langs : gmap string (gset string)) :
  for_state add_prog_lang files acc = Ok prog_langs →
  (∀ lang, is_Some (prog_langs !! lang) ↔
            is_Some (acc !! lang) ∨ ∃ kb, kb ∈ files ∧ parent_name (rel kb) = lang)
  ∧ (∀ lang ids, prog_langs !! lang = Some ids →
       acc !! lang = Some ids
       ∨ ∃ kb data, kb ∈ files ∧ parent_name (rel kb) = lang
                    ∧ content kb = Document data ∧ keyword_ids data = Ok ids).
Proof.
  revert acc. induction files as [|f files IH]; simpl; intros acc H.
  - injection H as <-. split.
    + intros lang. split; [by left|]. intros [?|(? & ?%elem_of_nil & _)]; done.
    + intros lang ids ?. by left.
  - destruct (add_prog_lang acc f) as [acc'|] eqn:Hadd; simpl in H; [|done].
    unfold add_prog_lang, json_load in Hadd.
    destruct (content f) as [data|msg|e0] eqn:Hc; simpl in Hadd; [|done..].
    destruct (keyword_ids data) as [ids0|] eqn:Hids; simpl in Hadd; [|done].
    injection Hadd as <-.
    destruct (IH _ H) as [IH1 IH2]. split.
    + intros lang. rewrite IH1, lookup_insert.
      setoid_rewrite elem_of_cons. case_decide as Hl; split.
      * intros _. right. exists f. by split; [left|].
      * intros _. by left.
      * intros [?|(kb & ? & ?)]; [by left|]. right. exists kb. by split; [right|].
      * intros [?|(kb & [->|?] & ?)]; [by left|done|]. right. by exists kb.
    + intros lang ids Hl. destruct (IH2 _ _ Hl) as [Hacc|(kb & dt & ? & ? & ? & ?)].
      * rewrite lookup_insert in Hacc. case_decide as Heq.
        -- injection Hacc as <-. right. exists f, data. by split; [left|].
        -- by left.
      * right. exists kb, dt. by split; [right|].
Qed.

Lemma load_prog_langs_Ok (t : tree) (prog_langs : gmap string (gset string)) :
  load_prog_langs t = Ok prog_langs →
  (∀ lang, is_Some (prog_langs !! lang) ↔
            ∃ kb, kb ∈ find_keywords_base_files t ∧ parent_name (rel kb) = lang)
  ∧ (∀ lang ids, prog_langs !! lang = Some ids →
       ∃ kb d keywords,
         kb ∈ find_keywords_base_files t ∧ parent_name (rel kb) = lang
         ∧ content kb = Document (JObj d)
         ∧ default (JObj []) (dict_get d "keywords") = JObj keywords
         ∧ ∀ x, x ∈ ids ↔ ∃ key value, (key, value) ∈ keywords ∧ py_str value = Ok x).
Proof.
  intros H. apply for_state_add_prog_lang in H as [H1 H2]. split.
  - intros lang. rewrite H1, lookup_empty. split; [|by right].
    by intros [[? ?]|?].
  - intros lang ids Hl. destruct (H2 _ _ Hl) as [?|(kb & data & ? & ? & Hc & Hk)].
    { by rewrite lookup_empty in *. }
    apply keyword_ids_Ok in Hk as (d & keywords & -> & ? & ?).
    by exists kb, d, keywords.
Qed.

(** ** Resolving the programming language *)

Lemma name_elem_of (p : list string) : p ≠ [] → name p ∈ p.
Proof.
  unfold name. induction p as [|x [|y p] IH]; intros Hp; [done|..].
  - apply list_elem_of_here.
  - apply list_elem_of_further. by apply IH.
Qed.

Lemma elem_of_removelast {A} (x : A) (p : list A) : x ∈ removelast p → x ∈ p.
Proof.
  induction p as [|y [|z p] IH]; simpl; intros H; [done|by apply elem_of_nil in H|].
  apply elem_of_cons in H as [->|H]; [apply list_elem_of_here|].
  apply list_elem_of_further. by apply IH.
Qed.

Lemma parent_name_nonempty (top : string) (p : list string) :
  below top p = true → "" ∉ p → parent_name p ≠ "".
Proof.
  intros Hb Hp Hn. apply Hp. apply elem_of_removelast.
  unfold parent_name in Hn. rewrite <- Hn. apply name_elem_of.
  by destruct p as [|? [|? [|? ?]]].
Qed.

Lemma no_keywords_base_for_empty (t : tree) (prog_langs : gmap string (gset string)) :
  tree_wf t → load_prog_langs t = Ok prog_langs → prog_langs !! "" = None.
Proof.
  intros Hwf Hl. apply load_prog_langs_Ok in Hl as [Hdom _].
  apply eq_None_not_Some. rewrite Hdom. intros (kb & Hkb & Hn).
  unfold find_keywords_base_files in Hkb.
  apply list_elem_of_filter in Hkb as [Hb Hkb].
  apply andb_prop_elim in Hb as [Hb _]. apply Is_true_eq_true in Hb.
  revert Hn. apply (parent_name_nonempty _ _ Hb).
  unfold tree_wf in Hwf. rewrite Forall_forall in Hwf. by apply Hwf.
Qed.

Lemma id_list_errors_shape (report : string → error) (ids : gset string)
    (es : list error) :
  id_list_errors report ids = Ok es → es = [] ∨ ∃ joined, es = [report joined].
Proof.
  unfold id_list_errors. destruct (decide _); [intros [= <-]; by left|].
  destruct (sorted_key_int _) as [l|]; simpl; [|done].
  intros [= <-]. right. eauto.
Qed.

Lemma lower_char_idemp (c : ascii) : lower_char (lower_char c) = lower_char c.
Proof. by destruct c as [[] [] [] [] [] [] [] []]. Qed.

Lemma lower_idemp (s : string) : lower (lower s) = lower s.
Proof. induction s as [|c s IH]; simpl; [done|]. by rewrite lower_char_idemp, IH. Qed.

(** C5 (as amended). The [programmingLanguage] of a translation document,
    a string or absent and then taken as the empty string, is lower-cased and
    looked up among the names of the keyword-base directories as they are
    written: it resolves exactly when the lower-cased value is the name of
    such a directory, so a directory whose name changes under lower-casing
    never matches.  When it does not resolve, the only finding for the file
    is the no-keywords-base error; when it resolves, that error is not
    reported. *)
Theorem C5_language_resolved_by_exact_lowercase_name
    (t : tree) (prog_langs : gmap string (gset string)) (f : file)
    (d : dict) (s : string) :
  load_prog_langs t = Ok prog_langs →
  content f = Document (JObj d) →
  default (JStr "") (dict_get d "programmingLanguage") = JStr s →
  (is_Some (prog_langs !! lower s) ↔
     ∃ kb, kb ∈ find_keywords_base_files t ∧ parent_name (rel kb) = lower s)
  ∧ (∀ kb, kb ∈ find_keywords_base_files t →
           lower (parent_name (rel kb)) ≠ parent_name (rel kb) →
           parent_name (rel kb) ≠ lower s)
  ∧ (prog_langs !! lower s = None →
       translation_completeness prog_langs f = Ok [NoKeywordsBase (rel f) (lower s)])
  ∧ (is_Some (prog_langs !! lower s) →
       ∀ errors lang, translation_completeness prog_langs f = Ok errors →
                      NoKeywordsBase (rel f) lang ∉ errors).
Proof.
  intros Hl Hc Hs. destruct (load_prog_langs_Ok _ _ Hl) as [Hdom _].
  split; [apply Hdom|]. split.
  { intros kb _ Hne Heq. apply Hne. by rewrite Heq, lower_idemp. }
  unfold translation_completeness, json_load. rewrite Hc. simpl. rewrite Hs.
  split; [by intros ->|].
  intros [base_ids Hb] errors lang. rewrite Hb.
  destruct (default (JObj []) (dict_get d "translations")); try done.
  destruct (id_list_errors (MissingIds _) _) as [e1|] eqn:H1; simpl; [|done].
  destruct (id_list_errors (ExtraIds _) _) as [e2|] eqn:H2; simpl; [|done].
  intros [= <-]. rewrite elem_of_app.
  apply id_list_errors_shape in H1, H2.
  intros [H|H]; [destruct H1 as [->|[? ->]] | destruct H2 as [->|[? ->]]];
    (by apply elem_of_nil in H) || by apply list_elem_of_singleton in H.
Qed.

Lemma C5_language_resolved_by_exact_lowercase_name_witness :
  is_Some (python_prog_langs !! lower "PYTHON") ↔
  ∃ kb, kb ∈ find_keywords_base_files [python_keywords; capital_field_json]
        ∧ parent_name (rel kb) = lower "PYTHON".
Proof.
  apply (C5_language_resolved_by_exact_lowercase_name
           [python_keywords; capital_field_json] python_prog_langs capital_field_json
           (translation_fields [("programmingLanguage", JStr "PYTHON")]
              (JObj [("1", JStr "repetir"); ("2", JStr "funcao")]))
           "PYTHON").
  - vm_compute. reflexivity.
  - reflexivity.
  - reflexivity.
Defined.

(** C5 (as stated) fails: the directory is named "Python", the field reads
    "Python", so its lower-cased value names the directory up to case; the
    completeness check nevertheless reports that no keywords base exists. *)
Lemma C5_capital_directory_never_matches :
  (∃ kb, kb ∈ find_keywords_base_files capital_dir_tree
         ∧ lower (parent_name (rel kb)) = lower "Python")
  ∧ validate_completeness capital_dir_tree
    = Ok [NoKeywordsBase ["natural-languages"; "pt"; "python.json"] "python"].
Proof.
  split; [|by vm_compute].
  exists (keywords_file "Python" (keywords_doc [("loop", JInt 1); ("func", JInt 2)])).
  split; [|by vm_compute]. vm_compute. apply list_elem_of_here.
Qed.

(** C10. A translation document without the [programmingLanguage] field is
    handled as if the field were the empty string: no keywords-base
    directory has the empty name, so the check of that file returns the
    no-keywords-base error, which is part of whatever the completeness check
    returns. *)
Theorem C10_absent_language_is_reported
    (t : tree) (prog_langs : gmap string (gset string)) (f : file) (d : dict) :
  tree_wf t →
  load_prog_langs t = Ok prog_langs →
  f ∈ find_translation_files t →
  content f = Document (JObj d) →
  dict_get d "programmingLanguage" = None →
  translation_completeness prog_langs f = Ok [NoKeywordsBase (rel f) ""]
  ∧ ∀ errors, validate_completeness t = Ok errors →
              NoKeywordsBase (rel f) "" ∈ errors.
Proof.
  intros Hwf Hl Hf Hc Hd.
  assert (Hrun : translation_completeness prog_langs f
                 = Ok [NoKeywordsBase (rel f) ""]).
  { unfold translation_completeness, json_load. rewrite Hc. simpl. rewrite Hd. simpl.
    by rewrite (no_keywords_base_for_empty _ _ Hwf Hl). }
  split; [done|]. intros errors. unfold validate_completeness. rewrite Hl. simpl.
  intros Hall. destruct (for_extend_Ok_inv _ _ _ _ Hall Hf) as (ex & b & a & Hex & ->).
  rewrite Hrun in Hex. injection Hex as <-.
  rewrite !elem_of_app. right. left. apply list_elem_of_here.
Qed.

Lemma C10_absent_language_is_reported_witness :
  translation_completeness python_prog_langs no_language_json
  = Ok [NoKeywordsBase (rel no_language_json) ""].
Proof.
  apply (C10_absent_language_is_reported [python_keywords; no_language_json]
           python_prog_langs no_language_json
           (translation_fields [] (JObj [("1", JStr "repetir"); ("2", JStr "funcao")]))).
  - unfold tree_wf. apply (bool_decide_unpack _). by vm_compute.
  - vm_compute. reflexivity.
  - vm_compute. apply list_elem_of_here.
  - reflexivity.
  - reflexivity.
Defined.

(** ** Sorting IDs by their numeric value *)

Lemma insert_by_key_Permutation (x : Z * string) (l : list (Z * string)) :
  insert_by_key x l ≡ₚ x :: l.
Proof.
  induction l as [|y l IH]; simpl; [done|].
  destruct (x.1 <=? y.1); [done|]. by rewrite IH, Permutation_swap.
Qed.

Lemma sort_by_key_Permutation (l : list (Z * string)) : sort_by_key l ≡ₚ l.
Proof.
  induction l as [|x l IH]; simpl; [done|].
  by rewrite insert_by_key_Permutation, IH.
Qed.

Lemma insert_by_key_sorted (x : Z * string) (l : list (Z * string)) :
  StronglySorted key_le l → StronglySorted key_le (insert_by_key x l).
Proof.
  induction 1 as [|y l Hl IH Hy]; simpl.
  - repeat constructor.
  - destruct (Z.leb_spec x.1 y.1) as [Hle|Hgt].
    + constructor; [by constructor|]. constructor; [done|].
      eapply Forall_impl; [exact Hy|]. unfold key_le. intros. lia.
    + constructor; [done|].
      rewrite insert_by_key_Permutation. constructor; [|done].
      unfold key_le. lia.
Qed.

Lemma sort_by_key_sorted (l : list (Z * string)) :
  StronglySorted key_le (sort_by_key l).
Proof.
  induction l as [|x l IH]; simpl; [constructor|]. by apply insert_by_key_sorted.
Qed.

Lemma for_list_with_int_key (l : list string) :
  Forall (λ x, is_Some (Py.int x)) l →
  ∃ keyed, for_list with_int_key l = Ok keyed
           ∧ keyed.*2 = l
           ∧ Forall (λ p, Py.int p.2 = Some p.1) keyed.
Proof.
  induction 1 as [|x l [n Hn] _ (keyed & Hk & Hl & Hf)]; simpl.
  - by exists [].
  - exists ((n, x) :: keyed).
    assert (with_int_key x = Ok (n, x)) as -> by (unfold with_int_key; by rewrite Hn).
    simpl. rewrite Hk. simpl. split; [done|].
    split; [f_equal; exact Hl|]. by constructor.
Qed.

Lemma int_le_of_keys (keyed : list (Z * string)) :
  Forall (λ p, Py.int p.2 = Some p.1) keyed →
  StronglySorted key_le keyed → StronglySorted int_le keyed.*2.
Proof.
  intros Hf Hs. induction Hs as [|p l Hl IH Hp]; simpl; [constructor|].
  apply Forall_cons in Hf as [Hp1 Hf]. constructor; [by apply IH|].
  apply Forall_fmap. rewrite Forall_forall in Hp, Hf |- *.
  intros q Hq. unfold int_le. simpl. rewrite Hp1, (Hf q Hq). by apply Hp.
Qed.

(** [sorted(l, key=int)] returns, when every element reads as an integer,
    the elements of [l] in numeric order. *)
Lemma sorted_key_int_Ok (l : list string) :
  Forall (λ x, is_Some (Py.int x)) l →
  ∃ sorted, sorted_key_int l = Ok sorted
            ∧ sorted ≡ₚ l ∧ StronglySorted int_le sorted.
Proof.
  intros Hl. destruct (for_list_with_int_key l Hl) as (keyed & Hk & <- & Hf).
  exists (sort_by_key keyed).*2. unfold sorted_key_int. rewrite Hk. simpl.
  split; [done|]. split.
  - by rewrite sort_by_key_Permutation.
  - apply int_le_of_keys; [|apply sort_by_key_sorted].
    by rewrite sort_by_key_Permutation.
Qed.

Lemma id_list_errors_Ok (report : string → error) (ids : gset string) :
  set_Forall (λ x, is_Some (Py.int x)) ids →
  ∃ sorted_ids,
    id_list_errors report ids
    = Ok (if decide (ids = ∅) then [] else [report (join ", " sorted_ids)])
    ∧ sorted_ids ≡ₚ elements ids ∧ StronglySorted int_le sorted_ids.
Proof.
  intros Hids.
  destruct (sorted_key_int_Ok (elements ids)) as (sorted & Hs & Hp & Hsorted).
  { apply Forall_forall. intros x Hx. apply Hids. by apply elem_of_elements. }
  exists sorted. unfold id_list_errors. destruct (decide _); [done|].
  by rewrite Hs.
Qed.

(** X21. Once the first loop of the completeness check has read every
    keywords base, for a translation that is an object, whose programming
    language resolves, whose [translations] field is a mapping or absent,
    and whose missing and extra IDs are all read by [int], the completeness
    check of the file returns exactly: one error with all the missing IDs (those of the keywords base
    that are not keys of the translations) in numeric order, joined by a
    comma and a space, when there are any; then one such error for the
    extra IDs, when there are any; and nothing when there are neither.  The
    IDs of the keywords base are the string forms of the values of its
    [keywords] mapping; when the whole check returns, these findings are
    part of what it returns. *)
Theorem X21_findings_when_ids_are_readable
    (t : tree) (prog_langs : gmap string (gset string)) (f : file)
    (d translations : dict) (s : string) (base_ids : gset string) :
  load_prog_langs t = Ok prog_langs →
  f ∈ find_translation_files t →
  content f = Document (JObj d) →
  default (JStr "") (dict_get d "programmingLanguage") = JStr s →
  prog_langs !! lower s = Some base_ids →
  default (JObj []) (dict_get d "translations") = JObj translations →
  let missing := base_ids ∖ key_set translations in
  let extra := key_set translations ∖ base_ids in
  set_Forall (λ x, is_Some (Py.int x)) (missing ∪ extra) →
  ∃ sorted_missing sorted_extra,
    let findings :=
      (if decide (missing = ∅) then []
       else [MissingIds (rel f) (join ", " sorted_missing)])
      ++ (if decide (extra = ∅) then []
          else [ExtraIds (rel f) (join ", " sorted_extra)]) in
    translation_completeness prog_langs f = Ok findings
    ∧ sorted_missing ≡ₚ elements missing
    ∧ StronglySorted int_le sorted_missing
    ∧ sorted_extra ≡ₚ elements extra
    ∧ StronglySorted int_le sorted_extra
    ∧ (∃ kb kd keywords,
         kb ∈ find_keywords_base_files t
         ∧ parent_name (rel kb) = lower s
         ∧ content kb = Document (JObj kd)
         ∧ default (JObj []) (dict_get kd "keywords") = JObj keywords
         ∧ ∀ x, x ∈ base_ids ↔
                ∃ key value, (key, value) ∈ keywords ∧ py_str value = Ok x)
    ∧ (∀ x, x ∈ key_set translations ↔ ∃ value, (x, value) ∈ translations)
    ∧ (∀ errors, validate_completeness t = Ok errors →
                 ∃ before after, errors = before ++ findings ++ after).
Proof.
  intros Hl Hf Hc Hs Hb Hd missing extra Hint.
  destruct (id_list_errors_Ok (MissingIds (rel f)) missing)
    as (sorted_missing & Hm & Hmp & Hms).
  { intros x Hx. apply Hint, elem_of_union. by left. }
  destruct (id_list_errors_Ok (ExtraIds (rel f)) extra)
    as (sorted_extra & He & Hep & Hes).
  { intros x Hx. apply Hint, elem_of_union. by right. }
  exists sorted_missing, sorted_extra. intros findings.
  assert (Hrun : translation_completeness prog_langs f = Ok findings).
  { unfold translation_completeness, json_load. rewrite Hc. simpl.
    rewrite Hs, Hb, Hd. fold missing extra. by rewrite Hm, He. }
  split; [done|]. do 4 (split; [done|]).
  split; [by apply (load_prog_langs_Ok _ _ Hl)|]. split.
  - intros x. unfold key_set. rewrite elem_of_list_to_set, list_elem_of_fmap.
    split.
    + intros ([k v] & -> & H). by exists v.
    + intros (v & H). by exists (x, v).
  - intros errors. unfold validate_completeness. rewrite Hl. simpl. intros Hall.
    destruct (for_extend_Ok_inv _ _ _ _ Hall Hf) as (ex & b & a & Hex & ->).
    rewrite Hrun in Hex. injection Hex as <-. eauto.
Qed.

Lemma X21_findings_when_ids_are_readable_witness :
  ∃ sorted_missing sorted_extra,
    translation_completeness python_prog_langs uneven_json
    = Ok [MissingIds (rel uneven_json) (join ", " sorted_missing);
          ExtraIds (rel uneven_json) (join ", " sorted_extra)]
    ∧ sorted_missing ≡ₚ elements ({[ "1"; "2" ]} ∖ key_set uneven_translations)
    ∧ StronglySorted int_le sorted_missing
    ∧ sorted_extra ≡ₚ elements (key_set uneven_translations ∖ {[ "1"; "2" ]})
    ∧ StronglySorted int_le sorted_extra.
Proof.
  destruct (X21_findings_when_ids_are_readable [python_keywords; uneven_json]
              python_prog_langs uneven_json
              (translation_fields for_python (JObj uneven_translations))
              uneven_translations "python" {[ "1"; "2" ]})
    as (sorted_missing & sorted_extra & H & Hmp & Hms & Hep & Hes & _).
  - vm_compute. reflexivity.
  - vm_compute. apply list_elem_of_here.
  - reflexivity.
  - reflexivity.
  - vm_compute. reflexivity.
  - reflexivity.
  - apply (bool_decide_unpack _). by vm_compute.
  - exists sorted_missing, sorted_extra. by repeat split.
Defined.


(** * Further properties of the script *)

(** ** File discovery *)

Lemma discovered_files (t : tree) (f : file) :
  (f ∈ find_translation_files t →
     f ∈ all_json_files t
     ∧ name (rel f) ≠ "template.json"
     ∧ below "natural-languages" (rel f) = true
     ∧ (f ∉ find_keywords_base_files t))
  ∧ (f ∈ find_keywords_base_files t →
     f ∈ all_json_files t
     ∧ name (rel f) = "keywords-base.json"
     ∧ below "programming-languages" (rel f) = true).
Proof.
  unfold find_translation_files, find_keywords_base_files, all_json_files.
  rewrite !list_elem_of_filter. split.
  - intros [H Hf]. apply andb_prop_elim in H as [H Hskip].
    apply andb_prop_elim in H as [Hb Hj].
    apply Is_true_eq_true in Hb, Hj. split; [by rewrite Hj|].
    split; [|split; [done|]].
    + intros Hn. rewrite Hn in Hskip. by vm_compute in Hskip.
    + intros [H _]. apply andb_prop_elim in H as [H _].
      apply Is_true_eq_true in H.
      destruct (rel f) as [|d [|? ?]]; simpl in *; try done.
      apply String.eqb_eq in Hb, H. congruence.
  - intros [H Hf]. apply andb_prop_elim in H as [Hb Hn].
    apply Is_true_eq_true in Hb, Hn. apply String.eqb_eq in Hn.
    split; [|done]. split; [|done]. by rewrite Hn.
Qed.

(** X2. The translation files lie below natural-languages, are named
    *.json and are never named template.json; the keywords bases lie below
    programming-languages and are named keywords-base.json; no file is
    both, and the syntax check reads every one of them. *)
Theorem X2_discovered_files (t : tree) (f : file) :
  (f ∈ find_translation_files t →
     f ∈ all_json_files t
     ∧ name (rel f) ≠ "template.json"
     ∧ below "natural-languages" (rel f) = true
     ∧ (f ∉ find_keywords_base_files t))
  ∧ (f ∈ find_keywords_base_files t →
     f ∈ all_json_files t
     ∧ name (rel f) = "keywords-base.json"
     ∧ below "programming-languages" (rel f) = true).
Proof. apply discovered_files. Qed.

(** ** The syntax check *)

Lemma syntax_errors_empty_iff (files : list file) :
  (validate_json_syntax files = Ok [] ↔
     ∀ f, f ∈ files → ∃ data, content f = Document data)
  ∧ (∀ errors, validate_json_syntax files = Ok errors →
               (length errors ≤ length files)%nat).
Proof.
  unfold validate_json_syntax. split.
  - split.
    + intros H f Hf.
      destruct (for_extend_Ok_inv _ _ _ _ H Hf) as (ex & before & after & Hb & He).
      symmetry in He. apply app_nil in He as [_ [-> _]%app_nil].
      unfold json_load in Hb.
      destruct (content f) as [data|msg|e0] eqn:Hc; [by eauto|done|by destruct e0].
    + intros H. induction files as [|f files IH]; simpl; [done|].
      destruct (H f) as [data Hd]; [by left|].
      assert (Hl : json_load f = Ok data) by (unfold json_load; by rewrite Hd).
      rewrite Hl. simpl.
      rewrite IH; [done|]. intros g Hg. apply H. by right.
  - induction files as [|f files IH]; simpl; intros errors.
    + by intros [= <-].
    + destruct (for_extend _ files) as [el|] eqn:Hl.
      * specialize (IH el eq_refl). unfold json_load.
        destruct (content f) as [data|msg|[msg| | | | |]]; simpl; try done;
          intros [= <-]; simpl; lia.
      * unfold json_load.
        by destruct (content f) as [data|msg|[msg| | | | |]].
Qed.

(** X1. The syntax check returns no error exactly when every file it is
    given decodes, and when it returns it never returns more errors than
    files. *)
Theorem X1_syntax_errors_empty_iff (files : list file) :
  (validate_json_syntax files = Ok [] ↔
     ∀ f, f ∈ files → ∃ data, content f = Document data)
  ∧ (∀ errors, validate_json_syntax files = Ok errors →
               (length errors ≤ length files)%nat).
Proof. apply syntax_errors_empty_iff. Qed.

(** ** The schema check after the syntax gate *)

Lemma discovered_files_decode (t : tree) :
  validate_json_syntax (all_json_files t) = Ok [] →
  ∀ f, f ∈ find_keywords_base_files t ∨ f ∈ find_translation_files t →
       ∃ data, content f = Document data.
Proof.
  intros Hs f Hf. apply (proj1 (syntax_errors_empty_iff _)) with (f := f) in Hs;
    [done|].
  destruct Hf as [Hf|Hf]; by apply discovered_files in Hf as [? _].
Qed.

Lemma schema_check_returns (t : tree) :
  validate_json_syntax (all_json_files t) = Ok [] →
  ∃ errors,
    validate_schemas t = Ok errors
    ∧ ∀ e, e ∈ errors ↔
        (∃ f data, f ∈ find_keywords_base_files t ∧ content f = Document data
                   ∧ e ∈ validate_keyword_table_schema (rel f) data)
        ∨ (∃ f data, f ∈ find_translation_files t ∧ content f = Document data
                     ∧ e ∈ validate_translation_schema (rel f) data).
Proof.
  intros Hs. pose proof (discovered_files_decode t Hs) as Hdec.
  unfold validate_schemas.
  destruct (for_extend_all_Ok
              (λ f, data ← json_load f; Ok (validate_keyword_table_schema (rel f) data))
              (find_keywords_base_files t)) as [e1 H1].
  { intros f Hf. destruct (Hdec f (or_introl Hf)) as [data Hd].
    unfold json_load. rewrite Hd. simpl. eauto. }
  destruct (for_extend_all_Ok
              (λ f, data ← json_load f; Ok (validate_translation_schema (rel f) data))
              (find_translation_files t)) as [e2 H2].
  { intros f Hf. destruct (Hdec f (or_intror Hf)) as [data Hd].
    unfold json_load. rewrite Hd. simpl. eauto. }
  rewrite H1. simpl. rewrite H2. simpl. exists (e1 ++ e2). split; [done|].
  apply for_extend_Ok_Forall2 in H1 as (ess1 & F1 & ->).
  apply for_extend_Ok_Forall2 in H2 as (ess2 & F2 & ->).
  assert (Hin : ∀ (body : file → result (list error)) l ess e,
            Forall2 (λ x ex, body x = Ok ex) l ess →
            e ∈ concat ess ↔ ∃ x ex, x ∈ l ∧ body x = Ok ex ∧ e ∈ ex).
  { intros body l ess e F. induction F as [|x ex l ess Hx F IH]; simpl.
    - split; [by intros ?%elem_of_nil|]. by intros (? & ? & ?%elem_of_nil & _).
    - rewrite elem_of_app, IH. split.
      + intros [H|(y & ey & Hy & Hb & He)].
        * exists x, ex. by split; [left|].
        * exists y, ey. by split; [right|].
      + intros (y & ey & [->|Hy]%elem_of_cons & Hb & He).
        * left. congruence.
        * right. by exists y, ey. }
  intros e. rewrite elem_of_app, (Hin _ _ _ _ F1), (Hin _ _ _ _ F2).
  unfold json_load.
  split; (intros [(f & x & Hf & Hb & He)|(f & x & Hf & Hb & He)]; [left|right]).
  - destruct (content f) as [data|msg|e0] eqn:Hc; simpl in Hb; [|done..].
    injection Hb as <-. by exists f, data.
  - destruct (content f) as [data|msg|e0] eqn:Hc; simpl in Hb; [|done..].
    injection Hb as <-. by exists f, data.
  - exists f, (validate_keyword_table_schema (rel f) x). by rewrite Hb.
  - exists f, (validate_translation_schema (rel f) x). by rewrite Hb.
Qed.

(** X3. Once every .json file decodes, the schema check cannot raise: it
    returns the findings of the keyword-table schema for every keywords
    base and of the translation schema for every translation file, and
    nothing else. *)
Theorem X3_schema_check_returns (t : tree) :
  validate_json_syntax (all_json_files t) = Ok [] →
  ∃ errors,
    validate_schemas t = Ok errors
    ∧ ∀ e, e ∈ errors ↔
        (∃ f data, f ∈ find_keywords_base_files t ∧ content f = Document data
                   ∧ e ∈ validate_keyword_table_schema (rel f) data)
        ∨ (∃ f data, f ∈ find_translation_files t ∧ content f = Document data
                     ∧ e ∈ validate_translation_schema (rel f) data).
Proof. apply schema_check_returns. Qed.

Lemma X3_schema_check_returns_witness :
  ∃ errors, validate_schemas complete_tree = Ok errors.
Proof.
  destruct (X3_schema_check_returns complete_tree) as (errors & H & _).
  - reflexivity.
  - by exists errors.
Defined.

(** ** Documents without schema findings *)

Lemma extra_root_errors_nil (rel : list string) (keys allowed : gset string) :
  extra_root_errors rel (keys ∖ allowed) = [] ↔ keys ⊆ allowed.
Proof.
  unfold extra_root_errors. destruct (decide _) as [E|E].
  - split; [|done]. intros _. rewrite elem_of_subseteq. intros x Hx.
    destruct (decide (x ∈ allowed)) as [|Hn]; [done|].
    assert (x ∈ keys ∖ allowed) as H by (by apply elem_of_difference).
    rewrite E in H. by apply elem_of_empty in H.
  - split; [done|]. intros H. destruct E. apply set_eq. intros x.
    rewrite elem_of_difference, elem_of_empty. split; [|done].
    intros [Hx Hn]. apply Hn. by apply (proj1 (elem_of_subseteq _ _) H).
Qed.

Lemma keyword_entry_errors_nil (rel : list string) (kv : string * json) :
  keyword_entry_errors rel kv = [] ↔
  KEYWORD_PATTERN kv.1 = true ∧ not_natural kv.2 = false.
Proof.
  unfold keyword_entry_errors.
  destruct (KEYWORD_PATTERN kv.1), (not_natural kv.2); simpl; split;
    try done; by intros [? ?].
Qed.

Lemma translation_entry_errors_nil (rel : list string) (kv : string * json) :
  translation_entry_errors rel kv = [] ↔
  ID_PATTERN kv.1 = true ∧ ∃ s, kv.2 = JStr s ∧ s ≠ "".
Proof.
  unfold translation_entry_errors.
  destruct (ID_PATTERN kv.1); simpl.
  - destruct kv.2 as [| | | |s| |];
      try (split; [done | by intros [_ (? & ? & _)]]).
    destruct s as [|c s]; simpl.
    + split; [done|]. by intros [_ (? & [= <-] & ?)].
    + split; [|done]. intros _. split; [done|]. by exists (String c s).
  - split; [|by intros [? _]]. by destruct kv.2 as [| | | |[|? ?]| |].
Qed.

Lemma keyword_table_schema_accepts (rel : list string) (data : json) :
  validate_keyword_table_schema rel data = [] ↔
  ∃ d keywords,
    data = JObj d
    ∧ (∀ k, k ∈ d.*1 → k = "keywords")
    ∧ dict_get d "keywords" = Some (JObj keywords)
    ∧ ∀ key value, (key, value) ∈ keywords →
        KEYWORD_PATTERN key = true
        ∧ (integer_ge_0 value = true ∨ ∃ b, value = JBool b).
Proof.
  assert (Hroot : ∀ d : dict,
            extra_root_errors rel (key_set d ∖ {[ "keywords" ]}) = [] ↔
            ∀ k, k ∈ d.*1 → k = "keywords").
  { intros d. rewrite extra_root_errors_nil, elem_of_subseteq. unfold key_set.
    split; intros H k Hk.
    - assert (k ∈ ({[ "keywords" ]} : gset string)) as Hs
        by (by apply H, elem_of_list_to_set).
      by apply elem_of_singleton in Hs.
    - apply elem_of_list_to_set in Hk. apply elem_of_singleton. by apply H. }
  split.
  - destruct data as [| | | | | |d]; try done. simpl.
    destruct (dict_get d "keywords") as [[| | | | | |keywords]|] eqn:Hk;
      try (by intros [_ ?]%app_nil).
    intros [He Hf]%app_nil. exists d, keywords. split; [done|].
    split; [by apply Hroot|]. split; [done|].
    intros key value Hin. rewrite flat_map_nil in Hf.
    apply Hf, keyword_entry_errors_nil in Hin as [? ?].
    split; [done|]. by apply not_natural_false.
  - intros (d & keywords & -> & Hkeys & Hk & Hentries). simpl. rewrite Hk.
    apply app_nil. split; [by apply Hroot|].
    apply flat_map_nil. intros [key value] Hin.
    apply keyword_entry_errors_nil. destruct (Hentries _ _ Hin) as [? ?].
    split; [done|]. by apply not_natural_false.
Qed.

(** X4. The keyword-table schema check finds nothing in a document exactly
    when its root is an object whose only field is [keywords], that field is
    an object, every key of it is accepted by [KEYWORD_PATTERN] and every
    value is an integer that is at least 0 or a boolean. *)
Theorem X4_keyword_table_schema_accepts (rel : list string) (data : json) :
  validate_keyword_table_schema rel data = [] ↔
  ∃ d keywords,
    data = JObj d
    ∧ (∀ k, k ∈ d.*1 → k = "keywords")
    ∧ dict_get d "keywords" = Some (JObj keywords)
    ∧ ∀ key value, (key, value) ∈ keywords →
        KEYWORD_PATTERN key = true
        ∧ (integer_ge_0 value = true ∨ ∃ b, value = JBool b).
Proof. apply keyword_table_schema_accepts. Qed.

Lemma translation_schema_accepts (rel : list string) (data : json) :
  validate_translation_schema rel data = [] ↔
  ∃ d translations,
    data = JObj d
    ∧ (∀ k, k ∈ d.*1 ↔ k ∈ required_fields)
    ∧ (∀ field, field ∈ string_fields → ∃ s, dict_get d field = Some (JStr s))
    ∧ dict_get d "translations" = Some (JObj translations)
    ∧ ∀ key value, (key, value) ∈ translations →
        ID_PATTERN key = true ∧ ∃ s, value = JStr s ∧ s ≠ "".
Proof.
  assert (Hget : ∀ (d : dict) k, is_Some (dict_get d k) ↔ k ∈ d.*1).
  { intros d k. induction d as [|[k' v] d IH]; simpl.
    - split; [by intros [? ?] | by intros ?%elem_of_nil].
    - rewrite elem_of_cons. destruct (String.eqb_spec k' k) as [->|Hne].
      + split; [by left | eauto].
      + rewrite IH. split; [by right | by intros [?|?]]. }
  assert (Hprefix : ∀ d : dict,
     flat_map (λ field, match dict_get d field with
                        | None => [MissingField rel field]
                        | Some _ => []
                        end) required_fields
     ++ extra_root_errors rel (key_set d ∖ list_to_set required_fields)
     ++ flat_map (λ field, match dict_get d field with
                           | None | Some (JStr _) => []
                           | Some _ => [FieldNotString rel field]
                           end) string_fields = [] ↔
     (∀ k, k ∈ d.*1 ↔ k ∈ required_fields)
     ∧ (∀ field, field ∈ string_fields → ∃ s, dict_get d field = Some (JStr s))).
  { intros d. rewrite !app_nil, !flat_map_nil, extra_root_errors_nil, elem_of_subseteq.
    unfold key_set. split.
    - intros (Hreq & Hextra & Hstr). split.
      + intros k. split.
        * intros Hk. apply (elem_of_list_to_set (C:=gset string)), Hextra.
          by apply elem_of_list_to_set.
        * intros Hk. apply Hget. specialize (Hreq k Hk).
          by destruct (dict_get d k).
      + intros field Hf. specialize (Hstr field Hf).
        assert (field ∈ required_fields) as Hr.
        { revert Hf. unfold string_fields, required_fields.
          rewrite !elem_of_cons. tauto. }
        specialize (Hreq field Hr).
        destruct (dict_get d field) as [[| | | |s| |]|]; try done. eauto.
    - intros [Hkeys Hstr]. split; [|split].
      + intros field Hf. apply Hkeys, Hget in Hf as [v ->]. done.
      + intros k Hk. apply elem_of_list_to_set, Hkeys.
        by apply (elem_of_list_to_set (C:=gset string)).
      + intros field Hf. by destruct (Hstr field Hf) as [s ->]. }
  split.
  - destruct data as [| | | | | |d]; try done.
    cbv beta iota zeta delta [validate_translation_schema].
    destruct (dict_get d "translations") as [[| | | | | |translations]|] eqn:Ht.
    1-6: by intros [_ ?]%app_nil.
    + intros [Hp Hf]%app_nil.
      apply Hprefix in Hp as [Hkeys Hstr].
      exists d, translations. do 4 (split; [done|]).
      intros key value Hin. rewrite flat_map_nil in Hf.
      by apply Hf, translation_entry_errors_nil in Hin.
    + intros [Hkeys _]%Hprefix.
      assert ("translations" ∈ required_fields) as Hr
        by (unfold required_fields; rewrite !elem_of_cons; tauto).
      apply Hkeys, Hget in Hr as [v Hv]. congruence.
  - intros (d & translations & -> & Hkeys & Hstr & Ht & Hentries).
    cbv beta iota zeta delta [validate_translation_schema].
    rewrite Ht. apply app_nil. split.
    + by apply Hprefix.
    + apply flat_map_nil. intros [key value] Hin.
      by apply translation_entry_errors_nil, Hentries.
Qed.

(** X5. The translation schema check finds nothing in a document exactly
    when its root is an object with the five required fields and no other,
    the four string fields are strings, [translations] is an object, every
    key of it is accepted by [ID_PATTERN] and every value is a non-empty
    string. *)
Theorem X5_translation_schema_accepts (rel : list string) (data : json) :
  validate_translation_schema rel data = [] ↔
  ∃ d translations,
    data = JObj d
    ∧ (∀ k, k ∈ d.*1 ↔ k ∈ required_fields)
    ∧ (∀ field, field ∈ string_fields → ∃ s, dict_get d field = Some (JStr s))
    ∧ dict_get d "translations" = Some (JObj translations)
    ∧ ∀ key value, (key, value) ∈ translations →
        ID_PATTERN key = true ∧ ∃ s, value = JStr s ∧ s ≠ "".
Proof. apply translation_schema_accepts. Qed.


(** ** Reading IDs as integers *)

Lemma skip_class_length (cls : ascii → bool) (s : string) :
  (String.length (skip_class cls s) ≤ String.length s)%nat.
Proof.
  induction s as [|c r IH]; simpl; [done|].
  destruct (cls c); simpl; lia.
Qed.

Lemma leading_cons (cls : ascii → bool) (c : ascii) (r : string) :
  leading cls (String c r) = if cls c then S (leading cls r) else 0%nat.
Proof.
  unfold leading. simpl. pose proof (skip_class_length cls r).
  destruct (cls c); simpl; lia.
Qed.

Lemma int_digits_at_dollar (acc : Z) (count : nat) (r : string) :
  at_dollar (skip_class is_digit r) = true → 0 ≤ acc →
  ∃ n, int_digits acc count r
       = (n, (count + leading is_digit r)%nat, skip_class is_digit r)
       ∧ 0 ≤ n.
Proof.
  revert acc count. induction r as [|c r IH]; intros acc count Hd Hacc.
  - exists acc. unfold leading. simpl. by rewrite Nat.add_0_r.
  - rewrite leading_cons. simpl in *. destruct (is_digit c) eqn:Hc.
    + destruct (IH (10 * acc + digit_value c) (S count) Hd) as (n & Hn & Hpos).
      { unfold digit_value.
        unfold is_digit, in_range in Hc. apply andb_prop in Hc as [Hlo _].
        apply N.leb_le in Hlo. lia. }
      exists n. split; [|done]. rewrite Hn. do 2 f_equal. lia.
    + unfold at_dollar in Hd. simpl in Hd.
      destruct (Ascii.eqb_spec c newline) as [Heq|Hne]; [|done].
      subst c. destruct r; [|done]. exists acc. by rewrite Nat.add_0_r.
Qed.

Lemma ID_PATTERN_keys_are_integers (key : string) :
  ID_PATTERN key = true →
  ((leading is_digit key ≤ max_str_digits)%nat →
     ∃ n, Py.int key = Some n ∧ 0 ≤ n)
  ∧ ((max_str_digits < leading is_digit key)%nat → Py.int key = None)
  ∧ (leading is_digit key ≤ String.length key ≤ S (leading is_digit key))%nat.
Proof.
  unfold ID_PATTERN, match_plus_dollar. destruct key as [|c r]; [done|].
  intros [Hc Hd]%andb_prop.
  assert (0 ≤ digit_value c) as Hv.
  { unfold digit_value. unfold is_digit, in_range in Hc.
    apply andb_prop in Hc as [Hlo _]. apply N.leb_le in Hlo. lia. }
  destruct (int_digits_at_dollar (digit_value c) 1 r Hd Hv) as (n & Hn & Hpos).
  assert (Hsp : is_int_space c = false ∧ (code c =? 43)%N = false
                ∧ (code c =? 45)%N = false).
  { unfold is_digit, in_range in Hc. apply andb_prop in Hc as [Hlo Hhi].
    apply N.leb_le in Hlo, Hhi. unfold is_int_space, in_range.
    rewrite (proj2 (N.leb_gt (code c) 13)) by lia. rewrite andb_false_r.
    rewrite !(proj2 (N.eqb_neq (code c) _)) by lia. done. }
  destruct Hsp as (Hs & Hplus & Hminus).
  assert (Hrest : String.eqb (skip_class is_int_space (skip_class is_digit r)) ""
                  = true).
  { unfold at_dollar in Hd.
    destruct (skip_class is_digit r) as [|c' [|? ?]]; [done|..].
    - simpl in Hd. destruct (Ascii.eqb_spec c' newline) as [Heq|Hne]; [|done].
      by rewrite Heq.
    - simpl in Hd. by destruct (Ascii.eqb c' newline). }
  assert (Hint : Py.int (String c r)
                 = if (1 + leading is_digit r <=? max_str_digits)%nat
                   then Some n else None).
  { unfold Py.int. simpl. rewrite Hs, Hplus, Hminus.
    unfold int_unsigned. by rewrite Hc, Hn, Hrest. }
  rewrite leading_cons, Hc, Hint. split; [|split].
  - intros Hle. exists n. split; [|done].
    by rewrite (proj2 (Nat.leb_le _ _)) by lia.
  - intros Hlt. by rewrite (proj2 (Nat.leb_gt _ _)) by lia.
  - simpl. unfold leading. pose proof (skip_class_length is_digit r).
    unfold at_dollar in Hd.
    destruct (skip_class is_digit r) as [|c' [|? ?]]; simpl in *; [lia..|].
    by destruct (Ascii.eqb c' newline).
Qed.

(** X6. A key that [ID_PATTERN] accepts is digits, at most one character
    more (the line feed the pattern lets through at the end, which is white
    space for [int]).  [int] reads the key, as an integer that is at least
    0, when the digits are at most [max_str_digits] (4300), and refuses it
    when they are more. *)
Theorem X6_ID_PATTERN_keys_are_integers (key : string) :
  ID_PATTERN key = true →
  ((leading is_digit key ≤ max_str_digits)%nat →
     ∃ n, Py.int key = Some n ∧ 0 ≤ n)
  ∧ ((max_str_digits < leading is_digit key)%nat → Py.int key = None)
  ∧ (leading is_digit key ≤ String.length key ≤ S (leading is_digit key))%nat.
Proof. apply ID_PATTERN_keys_are_integers. Qed.

Lemma X6_ID_PATTERN_keys_are_integers_witness :
  ∃ n, Py.int ("12" +:+ String newline "") = Some n ∧ 0 ≤ n.
Proof.
  apply (X6_ID_PATTERN_keys_are_integers ("12" +:+ String newline "")).
  - reflexivity.
  - vm_compute. lia.
Defined.

Lemma int_digits_digit (acc : Z) (count : nat) (c : ascii) (r : string) :
  is_digit c = true →
  int_digits acc count (String c r)
  = int_digits (10 * acc + digit_value c) (S count) r.
Proof. intros Hc. simpl. by rewrite Hc. Qed.

Lemma int_digits_uint_pos (d : Decimal.uint) (acc : positive) (count : nat) :
  int_digits (Z.pos acc) count (NilEmpty.string_of_uint d)
  = (Z.pos (Pos.of_uint_acc d acc),
     (count + String.length (NilEmpty.string_of_uint d))%nat, "").
Proof.
  revert acc count.
  induction d as [|d IH|d IH|d IH|d IH|d IH|d IH|d IH|d IH|d IH|d IH];
    intros acc count; [by rewrite Nat.add_0_r|..];
    cbn [NilEmpty.string_of_uint Pos.of_uint_acc String.length];
    rewrite int_digits_digit by reflexivity;
    rewrite Nat.add_succ_r;
    change (S (count + ?m))%nat with (S count + m)%nat;
    rewrite <- IH; f_equal;
    match goal with
    | |- context [digit_value ?c] =>
        let v := eval vm_compute in (digit_value c) in
        change (digit_value c) with v
    end; lia.
Qed.

Lemma int_digits_uint (d : Decimal.uint) (count : nat) :
  int_digits 0 count (NilEmpty.string_of_uint d)
  = (Z.of_N (Pos.of_uint d),
     (count + String.length (NilEmpty.string_of_uint d))%nat, "").
Proof.
  revert count.
  induction d as [|d IH|d IH|d IH|d IH|d IH|d IH|d IH|d IH|d IH|d IH];
    intros count; [by rewrite Nat.add_0_r|..];
    cbn [NilEmpty.string_of_uint Pos.of_uint String.length];
    rewrite int_digits_digit by reflexivity;
    rewrite Nat.add_succ_r;
    change (S (count + ?m))%nat with (S count + m)%nat;
    [exact (IH (S count))|..];
    cbn [Z.of_N]; rewrite <- int_digits_uint_pos; f_equal.
Qed.

Lemma int_unsigned_uint (d : Decimal.uint) :
  d ≠ Decimal.Nil →
  (String.length (NilEmpty.string_of_uint d) ≤ max_str_digits)%nat →
  int_unsigned (NilEmpty.string_of_uint d) = Some (Z.of_N (Pos.of_uint d)).
Proof.
  intros Hd Hlen. pose proof (int_digits_uint d 0) as H.
  apply Nat.leb_le in Hlen.
  destruct d; [done|..]; cbn [NilEmpty.string_of_uint] in *;
    rewrite int_digits_digit in H by reflexivity;
    unfold int_unsigned;
    (replace (is_digit _) with true by reflexivity);
    change (10 * 0 + ?v) with v in H; rewrite H;
    cbn [skip_class String.eqb andb]; cbn [Nat.add];
    by rewrite Hlen.
Qed.

Lemma to_uint_not_Nil (p : positive) : Pos.to_uint p ≠ Decimal.Nil.
Proof.
  intros H. pose proof (DecimalPos.Unsigned.of_to p) as E.
  rewrite H in E. done.
Qed.

(** [int(str(n)) == n] whenever [str(n)] does not raise. *)
Lemma int_of_str_int (n : Z) (s : string) :
  str_int n = Ok s → Py.int s = Some n.
Proof.
  unfold str_int.
  destruct (String.length _ <=? max_str_digits)%nat eqn:Hlen; [|done].
  intros [= <-]. apply Nat.leb_le in Hlen.
  destruct n as [|p|p]; [done|..];
    cbn [Z.to_int NilZero.string_of_int Z.abs_N N.to_uint] in *;
    pose proof (to_uint_not_Nil p) as Hp;
    unfold NilZero.string_of_uint in *.
  - assert (Hlen' : (String.length (NilEmpty.string_of_uint (Pos.to_uint p))
                     ≤ max_str_digits)%nat)
      by (by destruct (Pos.to_uint p)).
    pose proof (int_unsigned_uint _ Hp Hlen') as H.
    rewrite DecimalPos.Unsigned.of_to in H.
    destruct (Pos.to_uint p) eqn:E; [done|..];
      cbn [NilEmpty.string_of_uint] in *; unfold Py.int;
      cbn [skip_class]; (replace (is_int_space _) with false by reflexivity);
      (replace (code _ =? 43)%N with false by reflexivity);
      (replace (code _ =? 45)%N with false by reflexivity); exact H.
  - assert (Hlen' : (String.length (NilEmpty.string_of_uint (Pos.to_uint p))
                     ≤ max_str_digits)%nat)
      by (by destruct (Pos.to_uint p)).
    pose proof (int_unsigned_uint _ Hp Hlen') as H.
    rewrite DecimalPos.Unsigned.of_to in H.
    unfold Py.int. cbn [skip_class].
    replace (is_int_space "-") with false by reflexivity.
    replace (code "-" =? 43)%N with false by reflexivity.
    replace (code "-" =? 45)%N with true by reflexivity.
    destruct (Pos.to_uint p) eqn:E; [done|..]; by rewrite H.
Qed.

Lemma integer_ids_are_read_back (data : json) (ids : gset string)
    (d keywords : dict) (key : string) (n : Z) :
  data = JObj d →
  dict_get d "keywords" = Some (JObj keywords) →
  keyword_ids data = Ok ids →
  (key, JInt n) ∈ keywords →
  ∃ x, x ∈ ids ∧ py_str (JInt n) = Ok x ∧ Py.int x = Some n
       ∧ with_int_key x = Ok (n, x).
Proof.
  intros -> Hk Hids Hin. unfold keyword_ids in Hids. rewrite Hk in Hids.
  simpl in Hids.
  destruct (for_list py_str keywords.*2) as [strs|] eqn:Hs; simpl in Hids; [|done].
  injection Hids as <-. apply for_list_Ok_Forall2 in Hs.
  apply list_elem_of_lookup in Hin as [i Hi].
  assert (keywords.*2 !! i = Some (JInt n)) as Hv
    by (apply list_lookup_fmap_Some; by exists (key, JInt n)).
  destruct (Forall2_lookup_l _ _ _ _ _ Hs Hv) as (x & Hx & Hstr).
  pose proof (int_of_str_int n x Hstr) as Hint.
  exists x. split; [|split; [done|split; [done|]]].
  - apply elem_of_list_to_set, list_elem_of_lookup. eauto.
  - unfold with_int_key. by rewrite Hint.
Qed.

(** X7. The ID that [validate_completeness] makes with [str] of a keyword
    whose value is an integer is in the ID set of the keywords base, and
    [int] reads it back as that integer: such an ID never raises in
    [sorted(..., key=int)]. *)
Theorem X7_integer_ids_are_read_back (data : json) (ids : gset string)
    (d keywords : dict) (key : string) (n : Z) :
  data = JObj d →
  dict_get d "keywords" = Some (JObj keywords) →
  keyword_ids data = Ok ids →
  (key, JInt n) ∈ keywords →
  ∃ x, x ∈ ids ∧ py_str (JInt n) = Ok x ∧ Py.int x = Some n
       ∧ with_int_key x = Ok (n, x).
Proof. apply integer_ids_are_read_back. Qed.

Lemma X7_integer_ids_are_read_back_witness :
  ∃ x, x ∈ ({[ "1"; "2" ]} : gset string) ∧ py_str (JInt 2) = Ok x
       ∧ Py.int x = Some 2 ∧ with_int_key x = Ok (2, x).
Proof.
  apply (X7_integer_ids_are_read_back
           (keywords_doc [("loop", JInt 1); ("func", JInt 2)]) {[ "1"; "2" ]}
           [("keywords", JObj [("loop", JInt 1); ("func", JInt 2)])]
           [("loop", JInt 1); ("func", JInt 2)] "func" 2).
  - reflexivity.
  - reflexivity.
  - reflexivity.
  - apply list_elem_of_further, list_elem_of_here.
Defined.

(** ** The order of the reported IDs *)

Lemma for_list_with_int_key_cases (l : list string) :
  (Forall (λ x, is_Some (Py.int x)) l ∧ ∃ keyed, for_list with_int_key l = Ok keyed)
  ∨ ((∃ x, x ∈ l ∧ Py.int x = None) ∧ for_list with_int_key l = Raise ValueError).
Proof.
  induction l as [|x l IH].
  - left. split; [constructor | by exists []].
  - change (for_list with_int_key (x :: l))
      with (y ← with_int_key x; ys ← for_list with_int_key l; Ok (y :: ys)).
    destruct (Py.int x) as [n|] eqn:Hx.
    + assert (with_int_key x = Ok (n, x)) as ->
        by (unfold with_int_key; by rewrite Hx).
      destruct IH as [[Hl [keyed Hk]]|[(y & Hy & Hn) Hr]].
      * left. rewrite Hk. split; [constructor; eauto | by eexists].
      * right. rewrite Hr. split; [|done]. exists y. by split; [right|].
    + assert (with_int_key x = Raise ValueError) as ->
        by (unfold with_int_key; by rewrite Hx).
      right. split; [|done]. exists x. by split; [left|].
Qed.

Lemma sorted_key_int_cases (l : list string) :
  (Forall (λ x, is_Some (Py.int x)) l ∧ ∃ sorted, sorted_key_int l = Ok sorted)
  ∨ ((∃ x, x ∈ l ∧ Py.int x = None) ∧ sorted_key_int l = Raise ValueError).
Proof.
  unfold sorted_key_int.
  destruct (for_list_with_int_key_cases l) as [[Hl [keyed Hk]]|[Hx Hr]].
  - left. rewrite Hk. simpl. eauto.
  - right. by rewrite Hr.
Qed.

(** X8. When no two of the IDs have the same numeric value, what
    [sorted(ids, key=int)] returns, a list or [ValueError], does not depend
    on the order in which the IDs are handed to it: the reported list is the
    same for every iteration order of the set. *)
Theorem X8_sorted_ids_do_not_depend_on_order (l1 l2 : list string) :
  l1 ≡ₚ l2 →
  (∀ x y n, x ∈ l1 → y ∈ l1 → Py.int x = Some n → Py.int y = Some n → x = y) →
  sorted_key_int l1 = sorted_key_int l2.
Proof.
  intros Hp Hinj.
  destruct (sorted_key_int_cases l1) as [[H1 _]|[(x & Hx & Hn) Hr1]].
  - assert (H2 : Forall (λ x, is_Some (Py.int x)) l2) by (by rewrite <- Hp).
    destruct (sorted_key_int_Ok l1 H1) as (s1 & -> & Hp1 & Hs1).
    destruct (sorted_key_int_Ok l2 H2) as (s2 & -> & Hp2 & Hs2).
    f_equal. apply (StronglySorted_unique_strong int_le); [|done|done|].
    + intros x1 x2 Hx1 Hx2 H12 H21. rewrite Hp1 in Hx1. rewrite Hp2, <- Hp in Hx2.
      unfold int_le in H12, H21.
      destruct (Py.int x1) as [n1|] eqn:E1; [|done].
      destruct (Py.int x2) as [n2|] eqn:E2; [|done].
      assert (n1 = n2) as -> by lia. by apply (Hinj x1 x2 n2).
    + by rewrite Hp1, Hp2.
  - rewrite Hr1. symmetry.
    destruct (sorted_key_int_cases l2) as [[H2 _]|[_ Hr2]]; [|done].
    rewrite <- Hp in H2. rewrite Forall_forall in H2.
    destruct (H2 x Hx) as [? ?]. congruence.
Qed.

Lemma X8_sorted_ids_do_not_depend_on_order_witness :
  sorted_key_int ["10"; "9"; "100"] = sorted_key_int ["100"; "10"; "9"].
Proof.
  apply X8_sorted_ids_do_not_depend_on_order.
  - apply Permutation_cons_app with (l1 := ["100"]) (l2 := ["9"]).
    apply Permutation_cons_app with (l1 := ["100"]) (l2 := []). done.
  - intros x y n Hx Hy. rewrite !elem_of_cons in Hx, Hy.
    destruct Hx as [->|[->|[->|Hx]]]; [| | |by apply elem_of_nil in Hx];
      (destruct Hy as [->|[->|[->|Hy]]]; [| | |by apply elem_of_nil in Hy]);
      vm_compute; congruence.
Defined.

(** ** Complete translations, and IDs that stop the check *)

Lemma id_list_errors_cases (report : string → error) (ids : gset string) :
  (set_Forall (λ x, is_Some (Py.int x)) ids
   ∧ ∃ sorted_ids,
       id_list_errors report ids
       = Ok (if decide (ids = ∅) then [] else [report (join ", " sorted_ids)]))
  ∨ ((∃ x, x ∈ ids ∧ Py.int x = None)
     ∧ id_list_errors report ids = Raise ValueError).
Proof.
  destruct (sorted_key_int_cases (elements ids)) as [[H _]|[(x & Hx & Hn) Hr]].
  - left. assert (set_Forall (λ x, is_Some (Py.int x)) ids) as Hids.
    { intros x Hx. rewrite Forall_forall in H. by apply H, elem_of_elements. }
    split; [done|]. destruct (id_list_errors_Ok report ids Hids) as (s & Hs & _).
    eauto.
  - right. apply elem_of_elements in Hx. split; [eauto|].
    unfold id_list_errors. destruct (decide (ids = ∅)) as [->|_].
    + by apply elem_of_empty in Hx.
    + by rewrite Hr.
Qed.

Lemma difference_both_empty (X Y : gset string) :
  X ∖ Y = ∅ ∧ Y ∖ X = ∅ ↔ Y = X.
Proof.
  split.
  - intros [H1 H2]. apply set_eq. intros x. split; intros Hx.
    + destruct (decide (x ∈ X)) as [|Hn]; [done|].
      assert (x ∈ Y ∖ X) as H by (by apply elem_of_difference).
      rewrite H2 in H. by apply elem_of_empty in H.
    + destruct (decide (x ∈ Y)) as [|Hn]; [done|].
      assert (x ∈ X ∖ Y) as H by (by apply elem_of_difference).
      rewrite H1 in H. by apply elem_of_empty in H.
  - intros ->. split; apply set_eq; intros x;
      rewrite elem_of_difference, elem_of_empty; tauto.
Qed.

(** X9. For a translation whose programming language resolves, the
    completeness check of the file returns no finding exactly when the keys
    of its translations are the IDs of the keywords base, no more and no
    fewer; no ID has to be numeric for that. *)
Theorem X9_complete_iff_same_ids
    (prog_langs : gmap string (gset string)) (f : file)
    (d translations : dict) (s : string) (base_ids : gset string) :
  content f = Document (JObj d) →
  default (JStr "") (dict_get d "programmingLanguage") = JStr s →
  prog_langs !! lower s = Some base_ids →
  default (JObj []) (dict_get d "translations") = JObj translations →
  translation_completeness prog_langs f = Ok [] ↔ key_set translations = base_ids.
Proof.
  intros Hc Hs Hb Hd. unfold translation_completeness, json_load.
  rewrite Hc. simpl. rewrite Hs, Hb, Hd.
  rewrite <- difference_both_empty.
  destruct (id_list_errors_cases (MissingIds (rel f)) (base_ids ∖ key_set translations))
    as [[_ [sm ->]]|[(x & Hx & _) ->]]; simpl.
  - destruct (id_list_errors_cases (ExtraIds (rel f)) (key_set translations ∖ base_ids))
      as [[_ [se ->]]|[(x & Hx & _) ->]]; simpl.
    + destruct (decide (base_ids ∖ _ = ∅)) as [E1|E1];
        destruct (decide (key_set translations ∖ _ = ∅)) as [E2|E2]; simpl;
        split; try done; by intros [? ?].
    + split; [done|]. intros [_ E]. rewrite E in Hx. by apply elem_of_empty in Hx.
  - split; [done|]. intros [E _]. rewrite E in Hx. by apply elem_of_empty in Hx.
Qed.

Lemma X9_complete_iff_same_ids_witness :
  translation_completeness python_prog_langs reordered_json = Ok [] ↔
  key_set reordered_translations = {[ "1"; "2" ]}.
Proof.
  apply (X9_complete_iff_same_ids python_prog_langs reordered_json
           (translation_fields for_python (JObj reordered_translations))
           reordered_translations "python"); reflexivity.
Defined.

(** X10. For a translation whose programming language resolves, the
    completeness check of the file raises [ValueError] exactly when one of
    the IDs it would report, missing or extra, is not read by [int]; it
    raises nothing else. *)
Theorem X10_completeness_raises_iff_unreadable_id
    (prog_langs : gmap string (gset string)) (f : file)
    (d translations : dict) (s : string) (base_ids : gset string) (e : exn) :
  content f = Document (JObj d) →
  default (JStr "") (dict_get d "programmingLanguage") = JStr s →
  prog_langs !! lower s = Some base_ids →
  default (JObj []) (dict_get d "translations") = JObj translations →
  translation_completeness prog_langs f = Raise e ↔
  e = ValueError
  ∧ ∃ x, x ∈ (base_ids ∖ key_set translations) ∪ (key_set translations ∖ base_ids)
         ∧ Py.int x = None.
Proof.
  intros Hc Hs Hb Hd. unfold translation_completeness, json_load.
  rewrite Hc. simpl. rewrite Hs, Hb, Hd.
  setoid_rewrite elem_of_union.
  destruct (id_list_errors_cases (MissingIds (rel f)) (base_ids ∖ key_set translations))
    as [[H1 [sm ->]]|[(x & Hx & Hn) ->]]; simpl.
  - destruct (id_list_errors_cases (ExtraIds (rel f)) (key_set translations ∖ base_ids))
      as [[H2 [se ->]]|[(x & Hx & Hn) ->]]; simpl.
    + split; [done|]. intros [_ (x & [Hx|Hx] & Hn)].
      * destruct (H1 x Hx). congruence.
      * destruct (H2 x Hx). congruence.
    + split; [|by intros [-> _]]. intros [= <-]. eauto.
  - split; [|by intros [-> _]]. intros [= <-]. eauto.
Qed.

Lemma X10_completeness_raises_iff_unreadable_id_witness :
  translation_completeness python_prog_langs a_json = Raise ValueError ↔
  ValueError = ValueError
  ∧ ∃ x, x ∈ ({[ "1"; "2" ]}
               ∖ key_set [("1", JStr "repetir"); ("2", JStr "funcao"); ("x", JStr "y")])
             ∪ (key_set [("1", JStr "repetir"); ("2", JStr "funcao"); ("x", JStr "y")]
                ∖ {[ "1"; "2" ]})
         ∧ Py.int x = None.
Proof.
  apply (X10_completeness_raises_iff_unreadable_id python_prog_langs a_json
           (translation_fields for_python
              (JObj [("1", JStr "repetir"); ("2", JStr "funcao"); ("x", JStr "y")]))
           _ "python"); reflexivity.
Defined.

(** X12. A translation without the [translations] field, whose programming
    language resolves to a keywords base all of whose IDs [int] accepts, is
    checked as if the mapping were empty: every ID of the keywords base is
    reported as missing, in one error and in increasing order, and no extra
    ID is reported. *)
Theorem X12_absent_translations_all_missing
    (prog_langs : gmap string (gset string)) (f : file)
    (d : dict) (s : string) (base_ids : gset string) :
  content f = Document (JObj d) →
  default (JStr "") (dict_get d "programmingLanguage") = JStr s →
  prog_langs !! lower s = Some base_ids →
  dict_get d "translations" = None →
  set_Forall (λ x, is_Some (Py.int x)) base_ids →
  ∃ sorted_ids,
    translation_completeness prog_langs f
    = Ok (if decide (base_ids = ∅) then []
          else [MissingIds (rel f) (join ", " sorted_ids)])
    ∧ sorted_ids ≡ₚ elements base_ids
    ∧ StronglySorted int_le sorted_ids.
Proof.
  intros Hc Hs Hb Hd Hint. unfold translation_completeness, json_load.
  rewrite Hc. simpl. rewrite Hs, Hb, Hd. simpl.
  assert (key_set [] = (∅ : gset string)) as -> by done.
  assert (base_ids ∖ ∅ = base_ids) as ->.
  { apply set_eq. intros x. rewrite elem_of_difference, elem_of_empty. tauto. }
  assert ((∅ : gset string) ∖ base_ids = ∅) as ->.
  { apply set_eq. intros x. rewrite elem_of_difference, elem_of_empty. tauto. }
  destruct (id_list_errors_Ok (MissingIds (rel f)) base_ids Hint) as (sorted & -> & Hp & Hsorted).
  exists sorted. split; [|done].
  assert (id_list_errors (ExtraIds (rel f)) ∅ = Ok []) as ->.
  { unfold id_list_errors. by rewrite decide_True. }
  simpl. by rewrite app_nil_r.
Qed.

Lemma X12_absent_translations_all_missing_witness :
  ∃ sorted_ids,
    translation_completeness python_prog_langs bare_json
    = Ok [MissingIds (rel bare_json) (join ", " sorted_ids)]
    ∧ sorted_ids ≡ₚ elements ({[ "1"; "2" ]} : gset string).
Proof.
  destruct (X12_absent_translations_all_missing python_prog_langs bare_json
              for_python "python" {[ "1"; "2" ]})
    as (sorted & H & Hp & _).
  - reflexivity.
  - reflexivity.
  - reflexivity.
  - reflexivity.
  - apply (bool_decide_unpack _). by vm_compute.
  - exists sorted. split; [exact H | exact Hp].
Defined.


(** ** Keyword bases that share a directory name *)

Lemma for_state_app {A S} (body : S → A → result S) (l1 l2 : list A) (s : S) :
  for_state body (l1 ++ l2) s = for_state body l1 s ≫= for_state body l2.
Proof.
  revert s. induction l1 as [|x l1 IH]; simpl; intros s; [done|].
  destruct (body s x) as [s'|e]; simpl; [apply IH | done].
Qed.

Lemma for_state_add_prog_lang_other (files : list file)
    (acc prog_langs : gmap string (gset string)) (lang : string) :
  for_state add_prog_lang files acc = Ok prog_langs →
  (∀ f, f ∈ files → parent_name (rel f) ≠ lang) →
  prog_langs !! lang = acc !! lang.
Proof.
  revert acc. induction files as [|f files IH]; simpl; intros acc H Hne.
  - by injection H as <-.
  - destruct (add_prog_lang acc f) as [acc'|] eqn:Hadd; simpl in H; [|done].
    rewrite (IH _ H) by (intros g Hg; apply Hne; by right).
    unfold add_prog_lang in Hadd.
    destruct (json_load f) as [data|]; simpl in Hadd; [|done].
    destruct (keyword_ids data) as [ids|]; simpl in Hadd; [|done].
    injection Hadd as <-. apply lookup_insert_ne, Hne. by left.
Qed.

(** X11. When several keywords bases lie in directories of the same name,
    the one that is discovered last decides: the table built by the
    completeness check maps the name to the IDs of that file. *)
Theorem X11_last_keywords_base_wins
    (t : tree) (before after : list file) (kb : file)
    (prog_langs : gmap string (gset string)) :
  find_keywords_base_files t = before ++ kb :: after →
  (∀ f, f ∈ after → parent_name (rel f) ≠ parent_name (rel kb)) →
  load_prog_langs t = Ok prog_langs →
  ∃ data ids,
    content kb = Document data
    ∧ keyword_ids data = Ok ids
    ∧ prog_langs !! parent_name (rel kb) = Some ids.
Proof.
  intros Hfiles Hafter. unfold load_prog_langs. rewrite Hfiles, for_state_app.
  destruct (for_state add_prog_lang before ∅) as [acc|]; simpl; [|done].
  destruct (add_prog_lang acc kb) as [acc'|] eqn:Hadd; simpl; [|done].
  intros H. rewrite (for_state_add_prog_lang_other _ _ _ _ H Hafter).
  unfold add_prog_lang, json_load in Hadd.
  destruct (content kb) as [data|msg|e0]; simpl in Hadd; [|done..].
  destruct (keyword_ids data) as [ids|] eqn:Hids; simpl in Hadd; [|done].
  injection Hadd as <-. exists data, ids. by rewrite lookup_insert_eq.
Qed.

Lemma X11_last_keywords_base_wins_witness :
  ∃ data ids,
    content nested_python_keywords = Document data
    ∧ keyword_ids data = Ok ids
    ∧ ({[ "python" := {[ "7" ]} ]} : gmap string (gset string))
        !! parent_name (rel nested_python_keywords) = Some ids.
Proof.
  apply (X11_last_keywords_base_wins [python_keywords; nested_python_keywords]
           [python_keywords] []).
  - reflexivity.
  - intros f Hf. by apply elem_of_nil in Hf.
  - vm_compute. reflexivity.
Defined.

(** X18. Without any keywords base, a completeness check that returns has
    found exactly one error per translation file, in the order of the
    files, and each says that the language of the file has no keywords
    base. *)
Theorem X18_no_keywords_base_at_all (t : tree) (errors : list error) :
  find_keywords_base_files t = [] →
  validate_completeness t = Ok errors →
  Forall2 (λ f e, ∃ prog_lang, e = NoKeywordsBase (rel f) prog_lang)
          (find_translation_files t) errors.
Proof.
  intros Hkb. unfold validate_completeness, load_prog_langs. rewrite Hkb. simpl.
  intros (ess & F & ->)%for_extend_Ok_Forall2.
  induction F as [|f ex l ess Hf F IH]; simpl; [constructor|].
  unfold translation_completeness in Hf.
  destruct (json_load f) as [data|]; simpl in Hf; [|done].
  destruct data as [| | | | | |d]; try done.
  destruct (default (JStr "") (dict_get d "programmingLanguage")) as [| | | |s| |];
    try done.
  rewrite lookup_empty in Hf. injection Hf as <-. simpl.
  constructor; [eauto | done].
Qed.

Lemma X18_no_keywords_base_at_all_witness :
  Forall2 (λ f e, ∃ prog_lang, e = NoKeywordsBase (rel f) prog_lang)
          (find_translation_files [a_json; no_language_json])
          [NoKeywordsBase (rel a_json) "python"; NoKeywordsBase (rel no_language_json) ""].
Proof.
  apply (X18_no_keywords_base_at_all [a_json; no_language_json]).
  - reflexivity.
  - vm_compute. reflexivity.
Defined.

(** ** Words that do not repeat *)

Lemma first_introduced_None (earlier : list (string * string)) (k : string) :
  first_introduced earlier k = None ↔ k ∉ lower <$> earlier.*2.
Proof.
  induction earlier as [|[i w] earlier IH]; simpl.
  - split; [|done]. by intros _ ?%elem_of_nil.
  - rewrite not_elem_of_cons. destruct (String.eqb_spec (lower w) k) as [->|Hne].
    + split; [done | by intros [? _]].
    + rewrite IH. split; [by intros ?; split | by intros [_ ?]].
Qed.

Lemma reported_duplicates_count (rel : list string)
    (earlier entries : list (string * string)) :
  (length (reported_duplicates rel earlier entries)
   + size (list_to_set (lower <$> (earlier ++ entries).*2) : gset string)
   = length entries + size (list_to_set (lower <$> earlier.*2) : gset string))%nat.
Proof.
  revert earlier. induction entries as [|[i w] entries IH]; intros earlier; simpl.
  - by rewrite app_nil_r.
  - rewrite length_app.
    specialize (IH (earlier ++ [(i, w)])). rewrite <- app_assoc in IH. simpl in IH.
    assert (Hset : (list_to_set (lower <$> (earlier ++ [(i, w)]).*2) : gset string)
                   = {[ lower w ]} ∪ list_to_set (lower <$> earlier.*2)).
    { rewrite !fmap_app, list_to_set_app_L. simpl.
      apply set_eq. intros x. rewrite !elem_of_union, elem_of_empty. tauto. }
    rewrite Hset in IH.
    destruct (first_introduced earlier (lower w)) as [a|] eqn:Ha; simpl.
    + assert (lower w ∈ (list_to_set (lower <$> earlier.*2) : gset string)) as Hin.
      { apply elem_of_list_to_set. destruct (decide (lower w ∈ lower <$> earlier.*2));
          [done|]. apply first_introduced_None in n. congruence. }
      rewrite subseteq_union_1_L in IH; [lia|].
      by apply elem_of_subseteq_singleton.
    + apply first_introduced_None in Ha.
      rewrite size_union, size_singleton in IH; [lia|].
      apply disjoint_singleton_l. by rewrite elem_of_list_to_set.
Qed.

Lemma duplicate_errors_count (rel : list string) (translations : dict) :
  (length (duplicate_errors rel translations ∅)
   + size (list_to_set (lower <$> (usable_entries translations).*2) : gset string)
   = length (usable_entries translations))%nat.
Proof.
  rewrite (duplicate_errors_reported rel translations ∅ []) by (intros k; apply lookup_empty).
  pose proof (reported_duplicates_count rel [] (usable_entries translations)) as H.
  change (size (list_to_set (lower <$> ([] : list (string * string)).*2) : gset string))
    with (size (∅ : gset string)) in H.
  rewrite size_empty, Nat.add_0_r in H. exact H.
Qed.

(** X14. In a translations mapping, the number of duplicate errors is the
    number of entries with a non-empty string value minus the number of
    different lower-cased words among them. *)
Theorem X14_duplicate_errors_count (rel : list string) (translations : dict) :
  (length (duplicate_errors rel translations ∅)
   + size (list_to_set (lower <$> (usable_entries translations).*2) : gset string)
   = length (usable_entries translations))%nat.
Proof. apply duplicate_errors_count. Qed.

Lemma size_list_to_set_le (l : list string) :
  (size (list_to_set l : gset string) ≤ length l)%nat.
Proof.
  induction l as [|x l IH].
  - change (list_to_set [] : gset string) with (∅ : gset string).
    by rewrite size_empty.
  - change (list_to_set (x :: l) : gset string)
      with ({[ x ]} ∪ list_to_set l : gset string).
    rewrite size_union_alt, size_singleton. simpl length.
    assert (size ((list_to_set l : gset string) ∖ {[ x ]})
            ≤ size (list_to_set l : gset string))%nat.
    { apply subseteq_size. intros y Hy. by apply elem_of_difference in Hy as [? _]. }
    lia.
Qed.

Lemma size_list_to_set_NoDup (l : list string) :
  size (list_to_set l : gset string) = length l ↔ NoDup l.
Proof.
  split; [|apply size_list_to_set].
  induction l as [|x l IH]; intros Hl; [constructor|].
  change (list_to_set (x :: l) : gset string)
    with ({[ x ]} ∪ list_to_set l : gset string) in Hl.
  simpl length in Hl.
  pose proof (size_list_to_set_le l) as Hle.
  destruct (decide (x ∈ l)) as [Hx|Hx].
  - rewrite subseteq_union_1_L in Hl; [lia|].
    by apply elem_of_subseteq_singleton, elem_of_list_to_set.
  - apply NoDup_cons. split; [done|]. apply IH.
    rewrite size_union, size_singleton in Hl; [lia|].
    apply disjoint_singleton_l. by rewrite elem_of_list_to_set.
Qed.

(** X13. The uniqueness check finds nothing in a translations mapping
    exactly when the lower-cased words of its non-empty string values are
    all different. *)
Theorem X13_no_duplicate_iff_distinct_words (rel : list string) (translations : dict) :
  duplicate_errors rel translations ∅ = [] ↔
  NoDup (lower <$> (usable_entries translations).*2).
Proof.
  pose proof (duplicate_errors_count rel translations) as Hc.
  rewrite <- size_list_to_set_NoDup, !length_fmap.
  destruct (duplicate_errors rel translations ∅); simpl in Hc; split; try done; lia.
Qed.


(** ** Trees without schema findings *)

Lemma for_extend_nil {A E} (body : A → result (list E)) (l : list A) :
  for_extend body l = Ok [] → ∀ x, x ∈ l → body x = Ok [].
Proof.
  intros (ess & F & Hc)%for_extend_Ok_Forall2.
  induction F as [|x ex l ess Hx F IH]; intros y Hy; [by apply elem_of_nil in Hy|].
  simpl in Hc. symmetry in Hc. apply app_nil in Hc as [-> Hc].
  apply elem_of_cons in Hy as [->|Hy]; [done|]. by apply IH.
Qed.

Lemma for_state_all_Ok {A S} (body : S → A → result S) (l : list A) (s : S) :
  (∀ s x, x ∈ l → ∃ s', body s x = Ok s') → ∃ s', for_state body l s = Ok s'.
Proof.
  intros H. destruct (for_state body l s) as [s'|e] eqn:Hl; [eauto|].
  apply for_state_Raise in Hl as (s0 & x & Hx & Hr).
  destruct (H s0 x Hx) as [s' Hs]. congruence.
Qed.

Lemma validate_schemas_nil (t : tree) :
  validate_schemas t = Ok [] →
  (∀ f, f ∈ find_keywords_base_files t →
        ∃ data, content f = Document data
                ∧ validate_keyword_table_schema (rel f) data = [])
  ∧ (∀ f, f ∈ find_translation_files t →
          ∃ data, content f = Document data
                  ∧ validate_translation_schema (rel f) data = []).
Proof.
  unfold validate_schemas.
  destruct (for_extend _ (find_keywords_base_files t)) as [e1|] eqn:H1; simpl; [|done].
  destruct (for_extend _ (find_translation_files t)) as [e2|] eqn:H2; simpl; [|done].
  intros [= [-> ->]%app_nil].
  split; intros f Hf.
  - pose proof (for_extend_nil _ _ H1 f Hf) as H. unfold json_load in H.
    destruct (content f) as [data|msg|e0]; simpl in H; [|done..].
    injection H as H. eauto.
  - pose proof (for_extend_nil _ _ H2 f Hf) as H. unfold json_load in H.
    destruct (content f) as [data|msg|e0]; simpl in H; [|done..].
    injection H as H. eauto.
Qed.

Lemma for_list_all_Ok {A B} (f : A → result B) (l : list A) :
  (∀ x, x ∈ l → ∃ y, f x = Ok y) → ∃ ys, for_list f l = Ok ys.
Proof.
  induction l as [|x l IH]; simpl; intros H; [eauto|].
  destruct (H x) as [y ->]; [by left|]. simpl.
  destruct IH as [ys ->]; [|simpl; eauto]. intros z Hz. apply H. by right.
Qed.

(** X15. When the schema check finds nothing in the tree, no keyword ID is
    a boolean, and no ID has more than [max_str_digits] (4300) digits
    (neither an integer ID of a keywords base, which [json.load] never
    yields, nor a key of a translation), neither the completeness check nor
    the uniqueness check can raise: both return their findings. *)
Theorem X15_schema_clean_tree_is_checked (t : tree) :
  validate_schemas t = Ok [] →
  (∀ kb d keywords key b,
     kb ∈ find_keywords_base_files t →
     content kb = Document (JObj d) →
     dict_get d "keywords" = Some (JObj keywords) →
     (key, JBool b) ∉ keywords) →
  (∀ kb d keywords key n,
     kb ∈ find_keywords_base_files t →
     content kb = Document (JObj d) →
     dict_get d "keywords" = Some (JObj keywords) →
     (key, JInt n) ∈ keywords →
     ∃ s, str_int n = Ok s) →
  (∀ f d translations key,
     f ∈ find_translation_files t →
     content f = Document (JObj d) →
     dict_get d "translations" = Some (JObj translations) →
     key ∈ translations.*1 →
     (leading is_digit key ≤ max_str_digits)%nat) →
  (∃ errors, validate_completeness t = Ok errors)
  ∧ (∃ errors, validate_uniqueness t = Ok errors).
Proof.
  intros [Hkb Htr]%validate_schemas_nil Hbool Hdigits Hlen.
  (* the keywords bases *)
  assert (Hbase : ∀ kb, kb ∈ find_keywords_base_files t →
            ∃ d keywords, content kb = Document (JObj d)
              ∧ dict_get d "keywords" = Some (JObj keywords)
              ∧ ∀ key value, (key, value) ∈ keywords →
                  ∃ x, py_str value = Ok x ∧ is_Some (Py.int x)).
  { intros kb Hin. destruct (Hkb kb Hin) as (data & Hc & Hs).
    apply keyword_table_schema_accepts in Hs as (d & keywords & -> & _ & Hk & Hv).
    exists d, keywords. do 2 (split; [done|]).
    intros key value Hkv. destruct (Hv key value Hkv) as [_ [Hint|[b ->]]].
    - destruct value as [| |n| | | |]; try done. simpl.
      destruct (Hdigits kb d keywords key n Hin Hc Hk Hkv) as [x Hx].
      exists x. split; [done|]. rewrite (int_of_str_int n x Hx). eauto.
    - by destruct (Hbool kb d keywords key b). }
  destruct (for_state_all_Ok add_prog_lang (find_keywords_base_files t) ∅)
    as [prog_langs Hl].
  { intros acc kb Hin. destruct (Hbase kb Hin) as (d & keywords & Hc & Hk & Hv).
    unfold add_prog_lang, json_load, keyword_ids. rewrite Hc. simpl. rewrite Hk.
    simpl.
    destruct (for_list_all_Ok py_str keywords.*2) as [strs ->]; [|simpl; eauto].
    intros v ([k v'] & -> & Hkv)%list_elem_of_fmap.
    destruct (Hv k v' Hkv) as (x & Hx & _). eauto. }
  fold (load_prog_langs t) in Hl.
  assert (Hids : ∀ lang base_ids, prog_langs !! lang = Some base_ids →
                  set_Forall (λ x, is_Some (Py.int x)) base_ids).
  { intros lang base_ids Hlang x Hx.
    destruct (proj2 (load_prog_langs_Ok _ _ Hl) _ _ Hlang)
      as (kb & d & keywords & Hin & _ & Hc & Hk & Hset).
    destruct (Hbase kb Hin) as (d' & keywords' & Hc' & Hk' & Hv).
    rewrite Hc in Hc'. injection Hc' as <-. rewrite Hk' in Hk. simpl in Hk.
    injection Hk as <-. apply Hset in Hx as (key & value & Hkv & Hstr).
    destruct (Hv key value Hkv) as (x' & Hx' & Hint). congruence. }
  (* the translations *)
  assert (Htrans : ∀ f, f ∈ find_translation_files t →
            ∃ d translations s, content f = Document (JObj d)
              ∧ dict_get d "programmingLanguage" = Some (JStr s)
              ∧ dict_get d "translations" = Some (JObj translations)
              ∧ ∀ key, key ∈ translations.*1 → is_Some (Py.int key)).
  { intros f Hin. destruct (Htr f Hin) as (data & Hc & Hs).
    apply translation_schema_accepts in Hs
      as (d & translations & -> & _ & Hstr & Htrs & Hv).
    destruct (Hstr "programmingLanguage") as [s Hs].
    { unfold string_fields. rewrite !elem_of_cons. tauto. }
    exists d, translations, s. do 3 (split; [done|]).
    intros key Hkey.
    pose proof (Hlen f d translations key Hin Hc Htrs Hkey) as Hle.
    apply list_elem_of_fmap in Hkey as ([k v] & -> & Hkv).
    destruct (Hv k v Hkv) as [Hp _].
    destruct (proj1 (ID_PATTERN_keys_are_integers k Hp) Hle) as (n & Hn & _).
    eauto. }
  split.
  - unfold validate_completeness. rewrite Hl. simpl.
    apply for_extend_all_Ok. intros f Hin.
    destruct (Htrans f Hin) as (d & translations & s & Hc & Hs & Htrs & Hkeys).
    unfold translation_completeness, json_load. rewrite Hc. simpl.
    rewrite Hs, Htrs. simpl.
    destruct (prog_langs !! lower s) as [base_ids|] eqn:Hlang; [|eauto].
    destruct (id_list_errors_Ok (MissingIds (rel f)) (base_ids ∖ key_set translations))
      as (sm & -> & _).
    { intros x [Hx _]%elem_of_difference. by apply (Hids _ _ Hlang). }
    destruct (id_list_errors_Ok (ExtraIds (rel f)) (key_set translations ∖ base_ids))
      as (se & -> & _).
    { intros x [Hx _]%elem_of_difference. apply Hkeys.
      by apply elem_of_list_to_set in Hx. }
    simpl. eauto.
  - unfold validate_uniqueness. apply for_extend_all_Ok. intros f Hin.
    destruct (Htrans f Hin) as (d & translations & s & Hc & _ & Htrs & _).
    unfold translation_uniqueness, json_load. rewrite Hc. simpl. rewrite Htrs.
    simpl. eauto.
Qed.

Lemma X15_schema_clean_tree_is_checked_witness :
  (∃ errors, validate_completeness [python_keywords; uneven_json] = Ok errors)
  ∧ (∃ errors, validate_uniqueness [python_keywords; uneven_json] = Ok errors).
Proof.
  apply X15_schema_clean_tree_is_checked.
  - vm_compute. reflexivity.
  - intros kb d keywords key b Hkb Hc Hk Hin.
    vm_compute in Hkb. apply list_elem_of_singleton in Hkb. subst kb.
    injection Hc as <-. injection Hk as <-.
    rewrite !elem_of_cons in Hin. destruct Hin as [Hin|[Hin|Hin]]; try done.
    by apply elem_of_nil in Hin.
  - intros kb d keywords key n Hkb Hc Hk Hin.
    vm_compute in Hkb. apply list_elem_of_singleton in Hkb. subst kb.
    injection Hc as <-. injection Hk as <-.
    rewrite !elem_of_cons in Hin.
    destruct Hin as [[= _ ->]|[[= _ ->]|Hin]]; [by eexists..|].
    by apply elem_of_nil in Hin.
  - intros f d translations key Hf Hc Ht Hin.
    vm_compute in Hf. apply list_elem_of_singleton in Hf. subst f.
    injection Hc as <-. injection Ht as <-.
    simpl in Hin. rewrite !elem_of_cons in Hin.
    destruct Hin as [->|[->|[->|[->|Hin]]]]; [vm_compute; lia..|].
    by apply elem_of_nil in Hin.
Defined.

(** ** What the driver prints, and how it can end *)














(** ** The authoring template, and required fields *)

(** X19. The file template.json is left out of the schema, completeness
    and uniqueness checks, but not of the syntax check: when [json.load]
    raises on it, the run ends with exit code 1, the syntax check does not
    come back clean, and when the syntax check returns and the file's
    exception is [JSONDecodeError], the file's error is among the syntax
    errors. *)
Theorem X19_template_is_syntax_checked (t : tree) (f : file) (e : exn) :
  f ∈ t →
  name (rel f) = "template.json" →
  json_load f = Raise e →
  exit_code (main t) = 1
  ∧ validate_json_syntax (all_json_files t) ≠ Ok []
  ∧ (∀ errors msg,
       validate_json_syntax (all_json_files t) = Ok errors →
       e = JSONDecodeError msg →
       SyntaxError (rel f) msg ∈ errors)
  ∧ (f ∉ find_translation_files t)
  ∧ (f ∉ find_keywords_base_files t).
Proof.
  intros Hf Hn Hl.
  assert (Hin : f ∈ all_json_files t).
  { rewrite elem_of_all_json_files, Hn. by split. }
  split; [|split; [|split; [|split]]].
  - destruct (validate_json_syntax (all_json_files t)) as [errors|e'] eqn:Hs.
    + destruct (syntax_errors_of_undecodable _ f e errors Hin Hl Hs) as [Hne _].
      by rewrite (main_syntax_errors t errors Hs Hne).
    + by rewrite (main_syntax_raises t e' Hs).
  - intros Hs.
    by destruct (syntax_errors_of_undecodable _ f e [] Hin Hl Hs) as [Hne _].
  - intros errors msg Hs He.
    destruct (syntax_errors_of_undecodable _ f e errors Hin Hl Hs) as [_ Hmsg].
    by apply Hmsg.
  - unfold find_translation_files. rewrite list_elem_of_filter, Hn.
    intros [H _]. apply andb_prop_elim in H as [_ H]. by vm_compute in H.
  - unfold find_keywords_base_files. rewrite list_elem_of_filter, Hn.
    intros [H _]. apply andb_prop_elim in H as [_ H]. by vm_compute in H.
Qed.

Lemma X19_template_is_syntax_checked_witness :
  exit_code (main (broken_template :: complete_tree)) = 1
  ∧ validate_json_syntax (all_json_files (broken_template :: complete_tree)) ≠ Ok [].
Proof.
  destruct (X19_template_is_syntax_checked (broken_template :: complete_tree)
              broken_template (JSONDecodeError "Expecting value"))
    as (Hexit & Hne & _).
  - apply list_elem_of_here.
  - reflexivity.
  - reflexivity.
  - by split.
Defined.

(** X20. For a translation document whose root is an object, the schema
    check reports a required field as missing exactly when the object does
    not have it, one error per field, whatever else is wrong with the
    document. *)
Theorem X20_missing_fields_are_reported (rel : list string) (d : dict) (field : string) :
  MissingField rel field ∈ validate_translation_schema rel (JObj d) ↔
  field ∈ required_fields ∧ dict_get d field = None.
Proof.
  cbv beta iota zeta delta [validate_translation_schema].
  assert (Hreq : MissingField rel field
                 ∈ flat_map (λ field, match dict_get d field with
                                      | None => [MissingField rel field]
                                      | Some _ => []
                                      end) required_fields
                 ↔ field ∈ required_fields ∧ dict_get d field = None).
  { rewrite elem_of_flat_map. split.
    - intros (x & Hx & H). destruct (dict_get d x) eqn:Hd; [by apply elem_of_nil in H|].
      apply list_elem_of_singleton in H. injection H as ->. done.
    - intros [Hf Hd]. exists field. rewrite Hd. split; [done|]. apply list_elem_of_here. }
  assert (Hextra : MissingField rel field
                   ∉ extra_root_errors rel (key_set d ∖ list_to_set required_fields)).
  { unfold extra_root_errors. destruct (decide _); [by intros ?%elem_of_nil|].
    by intros ?%list_elem_of_singleton. }
  assert (Hstr : MissingField rel field
                 ∉ flat_map (λ field, match dict_get d field with
                                      | None | Some (JStr _) => []
                                      | Some _ => [FieldNotString rel field]
                                      end) string_fields).
  { rewrite elem_of_flat_map. intros (x & _ & H).
    destruct (dict_get d x) as [[]|];
      (by apply elem_of_nil in H) || by apply list_elem_of_singleton in H. }
  assert (Hentries : ∀ translations,
            MissingField rel field ∉ flat_map (translation_entry_errors rel) translations).
  { intros translations. rewrite elem_of_flat_map. intros ([k v] & _ & H).
    unfold translation_entry_errors in H. simpl in H.
    apply elem_of_app in H as [H|H].
    - destruct (ID_PATTERN k); [by apply elem_of_nil in H|].
      by apply list_elem_of_singleton in H.
    - destruct v as [| | | |s| |]; try by apply list_elem_of_singleton in H.
      destruct (_ <? _)%nat; [by apply list_elem_of_singleton in H|].
      by apply elem_of_nil in H. }
  destruct (dict_get d "translations") as [[| | | | | |translations]|];
    rewrite ?elem_of_app, Hreq; split; try tauto;
    intros [[?|[?|?]]|H]; try tauto;
    try (by apply list_elem_of_singleton in H); by apply Hentries in H.
Qed.
